(** * API_work2: polygons, transformations, filters and aggregates

    A shallow embedding of [API_work2.py], in two models of its numbers.

    The model over the reals.
    - A Python number is a real number of [R] and the arithmetic is exact:
      the statements about it say what the program computes when no
      operation rounds, overflows or converts.  [math.inf] is the extra
      element [PInf] of [xreal].
    - A [Polygon] (a tuple of pairs) is a [list point]; [poly[i]] is
      [vertex poly i].  Every index the program computes is in range, the
      default of [nth] is never reached.
    - [filter], [reduce] and generator expressions run over lists, in
      iteration order.
    - An exception is an explicit [None]: [ZeroDivisionError] in
      [point_in_polygon_chk], [ValueError] of [max] over an empty
      sequence in [agr_max_side].

    The model over machine numbers, module [B64].
    - A Python number is an [int] of any size or a binary64 [float], with
      the conversions, roundings, infinities and [nan] of the
      interpreter; an exception is a [Raise].  It runs the kernel, the
      generators and [tr_translate] on concrete inputs, and shows where
      the program leaves the model over the reals. *)

From Stdlib Require Import String Reals Lra Lia ZArith Bool List Permutation.
From Stdlib Require PrimFloat SpecFloat FloatOps.
Import ListNotations.

#[local] Open Scope R_scope.

(** ** Numbers *)

Module PyNum.

(** [a < b] and [a <= b] as Python evaluates them, to a [bool]. *)
Definition Rltb (a b : R) : bool := if Rlt_dec a b then true else false.
Definition Rleb (a b : R) : bool := if Rle_dec a b then true else false.

(** [a > b] is [b < a], [a >= b] is [b <= a]. *)
Definition Rgtb (a b : R) : bool := Rltb b a.
Definition Rgeb (a b : R) : bool := Rleb b a.

(** [min(a, b)] and [max(a, b)]: the first argument is kept unless the
    second one is strictly better. *)
Definition py_min (a b : R) : R := if Rltb b a then b else a.
Definition py_max (a b : R) : R := if Rgtb b a then b else a.

(** [math.hypot] and [math.radians]. *)
Definition hypot (a b : R) : R := sqrt (a * a + b * b).
Definition radians (deg : R) : R := deg * PI / 180.

(** The literal [1e-12] of [point_in_polygon]. *)
Definition tol : R := 1e-12.

(** [a / b], raising [ZeroDivisionError] (here [None]) when [b] is zero. *)
Definition py_div (a b : R) : option R :=
  if Req_dec_T b 0 then None else Some (a / b).

(** Floats together with [math.inf]. *)
Inductive xreal : Type :=
| Fin (r : R)
| PInf.

(** [a < b] on [xreal]: nothing is above [inf], and [inf < inf] is false. *)
Definition xltb (a b : xreal) : bool :=
  match a, b with
  | Fin r, Fin s => Rltb r s
  | Fin _, PInf => true
  | PInf, _ => false
  end.

Definition xmin (a b : xreal) : xreal := if xltb b a then b else a.

(** [math.hypot] when an argument may be [inf]. *)
Definition xhypot (a b : xreal) : xreal :=
  match a, b with
  | Fin r, Fin s => Fin (hypot r s)
  | _, _ => PInf
  end.

(** [range(start, stop, step)] for a positive [step]. *)
Definition range3 (start stop step : Z) : list Z :=
  map (fun k => (start + step * Z.of_nat k)%Z)
      (seq 0 (Z.to_nat ((stop - start + step - 1) / step))).

End PyNum.
Import PyNum.

(** ** Points and polygons *)

Definition point : Type := R * R.
Definition Polygon : Type := list point.

Definition origin : point := (0, 0).

(** [poly[i]]. *)
Definition vertex (poly : Polygon) (i : nat) : point := nth i poly origin.

(** ** 1. Generators *)

Definition gen_rectangle (width height : R) : Polygon :=
  [(0, 0); (0, height); (width, height); (width, 0)].

Definition gen_triangle (side : R) : Polygon :=
  let height := side * sqrt 3 / 2 in
  [(0, 0); (side, 0); (side / 2, height)].

Definition gen_hexagon (side : R) : Polygon :=
  map (fun angle => (side * cos (radians (IZR angle)),
                     side * sin (radians (IZR angle))))
      (range3 0 360 60).

(** ** 2. Transformations *)

Definition tr_translate (poly : Polygon) (dx dy : R) : Polygon :=
  map (fun '(x, y) => (x + dx, y + dy)) poly.

Definition tr_rotate (poly : Polygon) (angle_deg cx cy : R) : Polygon :=
  let angle_rad := radians angle_deg in
  let sin := sin angle_rad in
  let cos := cos angle_rad in
  map (fun '(x, y) => (cx + (x - cx) * cos - (y - cy) * sin,
                       cy + (x - cx) * sin + (y - cy) * cos)) poly.

Definition tr_symmetry (poly : Polygon) (axis : string) : Polygon :=
  if String.eqb axis "x"
  then map (fun '(x, y) => (x, - y)) poly
  else map (fun '(x, y) => (- x, y)) poly.

Definition tr_homothety (poly : Polygon) (k cx cy : R) : Polygon :=
  map (fun '(x, y) => (cx + (x - cx) * k, cy + (y - cy) * k)) poly.

(** ** Helper functions of the kernel *)

(** The cross product [is_convex] computes at index [i]. *)
Definition cross_at (poly : Polygon) (i : nat) : R :=
  let n := length poly in
  let '(x0, y0) := vertex poly i in
  let '(x1, y1) := vertex poly ((i + 1) mod n) in
  let '(x2, y2) := vertex poly ((i + 2) mod n) in
  (x1 - x0) * (y2 - y1) - (y1 - y0) * (x2 - x1).

Definition is_convex (poly : Polygon) : bool :=
  let n := length poly in
  if (n <? 3)%nat then false
  else
    let cross_products := map (cross_at poly) (seq 0 n) in
    forallb (fun c => Rgeb c 0) cross_products
    || forallb (fun c => Rleb c 0) cross_products.

(** The value of [area] when the loop of [polygon_area] ends. *)
Definition shoelace_sum (poly : Polygon) : R :=
  let n := length poly in
  fold_left
    (fun area i =>
       let '(x1, y1) := vertex poly i in
       let '(x2, y2) := vertex poly ((i + 1) mod n) in
       area + (x1 * y2 - x2 * y1))
    (seq 0 n) 0.

Definition polygon_area (poly : Polygon) : R :=
  Rabs (shoelace_sum poly) / 2.

(** [zip(poly, poly[1:] + poly[:1])]: each vertex with its successor. *)
Definition sides (poly : Polygon) : list (point * point) :=
  combine poly (skipn 1 poly ++ firstn 1 poly).

Definition side_length (e : point * point) : R :=
  let '((x1, y1), (x2, y2)) := e in hypot (x2 - x1) (y2 - y1).

Definition polygon_perimeter (poly : Polygon) : R :=
  fold_left Rplus (map side_length (sides poly)) 0.

(** The two tests [point_in_polygon] makes on the edge from [(x1, y1)] to
    [(x2, y2)]: the point is on the edge; the ray to the right of the
    point crosses the edge. *)
Definition on_edge (x y x1 y1 x2 y2 : R) : bool :=
  (Rleb (py_min x1 x2) x && Rleb x (py_max x1 x2))
  && (Rleb (py_min y1 y2) y && Rleb y (py_max y1 y2))
  && Rltb (Rabs ((x2 - x1) * (y - y1) - (y2 - y1) * (x - x1))) tol.

Definition straddles (y y1 y2 : R) : bool :=
  negb (Bool.eqb (Rgtb y1 y) (Rgtb y2 y)).

Definition crosses (x y x1 y1 x2 y2 : R) : bool :=
  straddles y y1 y2 && Rltb x ((x2 - x1) * (y - y1) / (y2 - y1) + x1).

(** The loop of [point_in_polygon] over the indices still to visit, with
    the current value of [inside]; [return True] leaves the loop. *)
Fixpoint pip_loop (poly : Polygon) (x y : R) (idx : list nat)
  (inside : bool) : bool :=
  match idx with
  | [] => inside
  | i :: rest =>
      let n := length poly in
      let '(x1, y1) := vertex poly i in
      let '(x2, y2) := vertex poly ((i + 1) mod n) in
      if on_edge x y x1 y1 x2 y2 then true
      else if crosses x y x1 y1 x2 y2
           then pip_loop poly x y rest (negb inside)
           else pip_loop poly x y rest inside
  end.

Definition point_in_polygon (poly : Polygon) (pt : point) : bool :=
  let '(x, y) := pt in
  pip_loop poly x y (seq 0 (length poly)) false.

(** The same loop with the division made explicit: [and] evaluates its
    right operand, and so the quotient, only when the left one holds;
    [None] is [ZeroDivisionError]. *)
Definition crosses_chk (x y x1 y1 x2 y2 : R) : option bool :=
  if straddles y y1 y2
  then match py_div ((x2 - x1) * (y - y1)) (y2 - y1) with
       | Some q => Some (Rltb x (q + x1))
       | None => None
       end
  else Some false.

Fixpoint pip_loop_chk (poly : Polygon) (x y : R) (idx : list nat)
  (inside : bool) : option bool :=
  match idx with
  | [] => Some inside
  | i :: rest =>
      let n := length poly in
      let '(x1, y1) := vertex poly i in
      let '(x2, y2) := vertex poly ((i + 1) mod n) in
      if on_edge x y x1 y1 x2 y2 then Some true
      else match crosses_chk x y x1 y1 x2 y2 with
           | None => None
           | Some true => pip_loop_chk poly x y rest (negb inside)
           | Some false => pip_loop_chk poly x y rest inside
           end
  end.

Definition point_in_polygon_chk (poly : Polygon) (pt : point) : option bool :=
  let '(x, y) := pt in
  pip_loop_chk poly x y (seq 0 (length poly)) false.

(** ** 3. Filters *)

Definition flt_convex_polygon (polygons : list Polygon) : list Polygon :=
  filter is_convex polygons.

Definition flt_square (polygons : list Polygon) (max_area : R)
  : list Polygon :=
  filter (fun p => Rltb (polygon_area p) max_area) polygons.

Definition flt_short_side (polygons : list Polygon) (min_length : R)
  : list Polygon :=
  filter (fun p => existsb (fun e => Rltb (side_length e) min_length)
                           (sides p))
         polygons.

Definition flt_point_inside (polygons : list Polygon) (pt : point)
  : list Polygon :=
  filter (fun p => is_convex p && point_in_polygon p pt) polygons.


(** [math.isclose(a, b)] with its default tolerances, [rel_tol = 1e-09]
    and [abs_tol = 0.0]:
    [abs(a - b) <= max(rel_tol * max(abs(a), abs(b)), abs_tol)]. *)
Definition isclose (a b : R) : bool :=
  Rleb (Rabs (a - b)) (py_max (1e-9 * py_max (Rabs a) (Rabs b)) 0).

Definition flt_angle_point (polygons : list Polygon) (pt : point)
  : list Polygon :=
  filter (fun p => existsb (fun '(x, y) => isclose x (fst pt)
                                           && isclose y (snd pt)) p)
         polygons.

(** ** 4. Aggregates *)

(** A point whose coordinates may be [math.inf]. *)
Definition xpoint : Type := (xreal * xreal)%type.

Definition fin_point (p : point) : xpoint := (Fin (fst p), Fin (snd p)).

(** [min(first, *rest, key=key)]: the first element of least key. *)
Definition min_key {A : Type} (key : A -> xreal) (first : A)
  (rest : list A) : A :=
  fold_left (fun best e => if xltb (key e) (key best) then e else best)
            rest first.

(** [max(seq)] of a sequence of floats; [None] is the [ValueError] raised
    on an empty one. *)
Definition max_list (l : list R) : option R :=
  match l with
  | [] => None
  | a :: rest => Some (fold_left py_max rest a)
  end.

Definition agr_origin_nearest (polygons : list Polygon) : xpoint :=
  fold_left
    (fun closest poly =>
       match map fin_point poly ++ [closest] with
       | first :: rest => min_key (fun p => xhypot (fst p) (snd p)) first rest
       | [] => closest
       end)
    polygons (PInf, PInf).

Definition agr_max_side (polygons : list Polygon) : option R :=
  fold_left
    (fun acc poly =>
       match acc with
       | None => None
       | Some max_len =>
           match max_list (map side_length (sides poly)) with
           | Some m => Some (py_max max_len m)
           | None => None
           end
       end)
    polygons (Some 0).

Definition agr_min_area (polygons : list Polygon) : xreal :=
  fold_left (fun min_a poly => xmin min_a (Fin (polygon_area poly)))
            polygons PInf.

Definition agr_perimeter (polygons : list Polygon) : R :=
  fold_left (fun total poly => total + polygon_perimeter poly) polygons 0.

Definition agr_area (polygons : list Polygon) : R :=
  fold_left (fun total poly => total + polygon_area poly) polygons 0.

(** ** Vocabulary of the statements *)

(** The edges the loops of [polygon_area] and [point_in_polygon] visit:
    vertex [i] with vertex [(i + 1) % n], for [i] in [range(n)]. *)
Definition edge_list (poly : Polygon) : list (point * point) :=
  map (fun i => (vertex poly i, vertex poly ((i + 1) mod length poly)))
      (seq 0 (length poly)).

(** The point [(x, y)] is in the bounding box of the edge [e] and its cross
    term with [e] is below the tolerance. *)
Definition OnEdge (x y : R) (e : point * point) : Prop :=
  let '((x1, y1), (x2, y2)) := e in
  Rmin x1 x2 <= x <= Rmax x1 x2 /\
  Rmin y1 y2 <= y <= Rmax y1 y2 /\
  Rabs ((x2 - x1) * (y - y1) - (y2 - y1) * (x - x1)) < 1 / 10 ^ 12.

(** The ray-casting rule: the ends of [e] are on different sides of the
    horizontal line through the point ([y1 > y] differs from [y2 > y]) and
    the point is to the left of the edge on that line. *)
Definition Crossing (x y : R) (e : point * point) : Prop :=
  let '((x1, y1), (x2, y2)) := e in
  ((y1 > y /\ ~ y2 > y) \/ (~ y1 > y /\ y2 > y)) /\
  x < (x2 - x1) * (y - y1) / (y2 - y1) + x1.

(** The two tests of the loop, on an edge as a pair of points. *)
Definition on_edgeb (x y : R) (e : point * point) : bool :=
  let '((x1, y1), (x2, y2)) := e in on_edge x y x1 y1 x2 y2.

Definition crossesb (x y : R) (e : point * point) : bool :=
  let '((x1, y1), (x2, y2)) := e in crosses x y x1 y1 x2 y2.

(** Whether an odd number of elements of [l] satisfies [f]. *)
Definition parityb {A : Type} (f : A -> bool) (l : list A) : bool :=
  fold_right (fun e acc => xorb (f e) acc) false l.

(** The signed area of the shoelace formula, before [abs]: positive for a
    counter-clockwise vertex order, negative for a clockwise one. *)
Definition signed_area (poly : Polygon) : R := shoelace_sum poly / 2.

(** A vertex map [(x, y) |-> (a x + b y + e, c x + d y + f)]. *)
Definition affine (a b c d e f : R) (p : point) : point :=
  let '(x, y) := p in (a * x + b * y + e, c * x + d * y + f).

(** An arrow head: the vertex [(1, 2)] is a notch in the left side. *)
Definition arrow : Polygon := [(0, 0); (4, 2); (0, 4); (1, 2)].

(** The sum of a list of reals, and the term an edge adds to [area] in
    the loop of [polygon_area]. *)
Definition Rsum (l : list R) : R := fold_right Rplus 0 l.

Definition shoelace_term (e : point * point) : R :=
  let '((x1, y1), (x2, y2)) := e in x1 * y2 - x2 * y1.


(** An edge run the other way. *)
Definition swap_edge (e : point * point) : point * point := (snd e, fst e).

(** The distance between two points, and from the origin. *)
Definition dist (p q : point) : R := hypot (fst q - fst p) (snd q - snd p).


(** ** The program on machine numbers *)

Module B64.
Import PrimFloat SpecFloat FloatOps.

(** A Python number: an [int] of any size or a [float] (binary64). *)
Inductive num : Type :=
| Int (z : Z)
| Flt (f : float).

(** The exceptions of the arithmetic, and what a computation gives. *)
Inductive exn : Type :=
| ZeroDivisionError
| OverflowError.

Inductive result (A : Type) : Type :=
| Value (a : A)
| Raise (e : exn).

Arguments Value {A} a.
Arguments Raise {A} e.

Definition bind {A B : Type} (r : result A) (k : A -> result B) : result B :=
  match r with
  | Value a => k a
  | Raise e => Raise e
  end.

Notation "x <- r ;; k" := (bind r (fun x => k))
  (at level 61, r at next level, right associativity).

(** A generator expression whose element may raise. *)
Fixpoint mapM {A B : Type} (f : A -> result B) (l : list A)
  : result (list B) :=
  match l with
  | [] => Value []
  | a :: rest => b <- f a ;; bs <- mapM f rest ;; Value (b :: bs)
  end.

(** The binary64 nearest to [m * 2 ^ e], ties to even. *)
Definition round (m e : Z) (szero : bool) : float :=
  SF2Prim (binary_normalize prec emax m e szero).

(** [float(z)]: the nearest float; [OverflowError] beyond the range. *)
Definition float_of_Z (z : Z) : result float :=
  let f := round z 0 false in
  if is_infinity f then Raise OverflowError else Value f.

Definition to_float (a : num) : result float :=
  match a with
  | Int z => float_of_Z z
  | Flt f => Value f
  end.

(** [a + b], [a - b], [a * b]: exact on two ints; otherwise an int operand
    is converted and the operation is that of binary64. *)
Definition arith (iop : Z -> Z -> Z) (fop : float -> float -> float)
  (a b : num) : result num :=
  match a, b with
  | Int x, Int y => Value (Int (iop x y))
  | _, _ => x <- to_float a ;; y <- to_float b ;; Value (Flt (fop x y))
  end.

Definition add : num -> num -> result num := arith Z.add PrimFloat.add.
Definition sub : num -> num -> result num := arith Z.sub PrimFloat.sub.
Definition mul : num -> num -> result num := arith Z.mul PrimFloat.mul.

(** [x / y] on two ints, [y] not 0: the float nearest to the quotient
    (55 bits of it and a sticky bit are rounded). *)
Definition Z_truediv (x y : Z) : result num :=
  let ax := Z.abs x in
  let ay := Z.abs y in
  let k := Z.max 0 (Z.log2 ay - Z.log2 ax + 55) in
  let n := (ax * 2 ^ k)%Z in
  let m := (2 * (n / ay) + (if (n mod ay =? 0)%Z then 0 else 1))%Z in
  let neg := xorb (x <? 0)%Z (y <? 0)%Z in
  let f := round (if neg then - m else m)%Z (- k - 1) neg in
  if is_infinity f then Raise OverflowError else Value (Flt f).

(** [a / b]: [ZeroDivisionError] on an int 0 or a float zero divisor. *)
Definition truediv (a b : num) : result num :=
  match a, b with
  | Int x, Int y =>
      if (y =? 0)%Z then Raise ZeroDivisionError else Z_truediv x y
  | _, _ =>
      x <- to_float a ;; y <- to_float b ;;
      if PrimFloat.eqb y 0%float then Raise ZeroDivisionError
      else Value (Flt (x / y)%float)
  end.

Definition py_abs (a : num) : num :=
  match a with
  | Int z => Int (Z.abs z)
  | Flt f => Flt (abs f)
  end.

(** An int against a float, exactly, as Python compares them; no order
    with [nan]. *)
Definition cmp_Z_float (z : Z) (f : float) : option comparison :=
  match Prim2SF f with
  | S754_nan => None
  | S754_infinity s => Some (if s then Gt else Lt)
  | S754_zero _ => Some (z ?= 0)%Z
  | S754_finite s m e =>
      let v := if s then Z.neg m else Z.pos m in
      Some (if (0 <=? e)%Z then (z ?= v * 2 ^ e)%Z
            else (z * 2 ^ (- e) ?= v)%Z)
  end.

Definition lt (a b : num) : bool :=
  match a, b with
  | Int x, Int y => (x <? y)%Z
  | Flt x, Flt y => PrimFloat.ltb x y
  | Int x, Flt y =>
      match cmp_Z_float x y with Some Lt => true | _ => false end
  | Flt x, Int y =>
      match cmp_Z_float y x with Some Gt => true | _ => false end
  end.

Definition le (a b : num) : bool :=
  match a, b with
  | Int x, Int y => (x <=? y)%Z
  | Flt x, Flt y => PrimFloat.leb x y
  | Int x, Flt y =>
      match cmp_Z_float x y with Some Lt | Some Eq => true | _ => false end
  | Flt x, Int y =>
      match cmp_Z_float y x with Some Gt | Some Eq => true | _ => false end
  end.

Definition gt (a b : num) : bool := lt b a.
Definition ge (a b : num) : bool := le b a.

Definition py_min (a b : num) : num := if lt b a then b else a.
Definition py_max (a b : num) : num := if gt b a then b else a.

(** The literal [1e-12], [math.pi] and [math.radians]. *)
Definition tol : float := 0x1.19799812dea11p-40%float.
Definition pi : float := 0x1.921fb54442d18p+1%float.
Definition radians (x : float) : float := (x * (pi / 180))%float.

Definition point : Type := (num * num)%type.
Definition Polygon : Type := list point.
Definition vertex (poly : Polygon) (i : nat) : point :=
  nth i poly (Int 0, Int 0).

Definition gen_rectangle (width height : num) : Polygon :=
  [(Int 0, Int 0); (Int 0, height); (width, height); (width, Int 0)].

(** [math.cos] and [math.sin] are those of the C library of the platform:
    they are arguments of [gen_hexagon]. *)
Definition gen_hexagon (cos sin : float -> float) (side : num)
  : result Polygon :=
  mapM (fun angle : Z =>
          a <- float_of_Z angle ;;
          x <- mul side (Flt (cos (radians a))) ;;
          y <- mul side (Flt (sin (radians a))) ;;
          Value (x, y))
       (range3 0 360 60).

Definition tr_translate (poly : Polygon) (dx dy : num) : result Polygon :=
  mapM (fun p : point =>
          x <- add (fst p) dx ;; y <- add (snd p) dy ;; Value (x, y))
       poly.

Definition cross_at (poly : Polygon) (i : nat) : result num :=
  let n := length poly in
  let '(x0, y0) := vertex poly i in
  let '(x1, y1) := vertex poly ((i + 1) mod n) in
  let '(x2, y2) := vertex poly ((i + 2) mod n) in
  a <- sub x1 x0 ;; b <- sub y2 y1 ;; ab <- mul a b ;;
  c <- sub y1 y0 ;; d <- sub x2 x1 ;; cd <- mul c d ;;
  sub ab cd.

Definition is_convex (poly : Polygon) : result bool :=
  let n := length poly in
  if (n <? 3)%nat then Value false
  else
    cross_products <- mapM (cross_at poly) (seq 0 n) ;;
    Value (forallb (fun c => ge c (Int 0)) cross_products
           || forallb (fun c => le c (Int 0)) cross_products).

Definition polygon_area (poly : Polygon) : result num :=
  let n := length poly in
  area <- fold_left
            (fun acc i =>
               area <- acc ;;
               let '(x1, y1) := vertex poly i in
               let '(x2, y2) := vertex poly ((i + 1) mod n) in
               a <- mul x1 y2 ;; b <- mul x2 y1 ;; t <- sub a b ;;
               add area t)
            (seq 0 n) (Value (Flt 0%float)) ;;
  truediv (py_abs area) (Int 2).

(** The two tests of the loop of [point_in_polygon]; [and] evaluates its
    right operand only when the left one holds. *)
Definition on_edge (x y x1 y1 x2 y2 : num) : result bool :=
  if (le (py_min x1 x2) x && le x (py_max x1 x2))
     && (le (py_min y1 y2) y && le y (py_max y1 y2))
  then
    a <- sub x2 x1 ;; b <- sub y y1 ;; ab <- mul a b ;;
    c <- sub y2 y1 ;; d <- sub x x1 ;; cd <- mul c d ;;
    t <- sub ab cd ;;
    Value (lt (py_abs t) (Flt tol))
  else Value false.

Definition crosses (x y x1 y1 x2 y2 : num) : result bool :=
  if negb (Bool.eqb (gt y1 y) (gt y2 y))
  then
    a <- sub x2 x1 ;; b <- sub y y1 ;; ab <- mul a b ;;
    c <- sub y2 y1 ;; q <- truediv ab c ;; r <- add q x1 ;;
    Value (lt x r)
  else Value false.

Fixpoint pip_loop (poly : Polygon) (x y : num) (idx : list nat)
  (inside : bool) : result bool :=
  match idx with
  | [] => Value inside
  | i :: rest =>
      let n := length poly in
      let '(x1, y1) := vertex poly i in
      let '(x2, y2) := vertex poly ((i + 1) mod n) in
      hit <- on_edge x y x1 y1 x2 y2 ;;
      if hit then Value true
      else
        c <- crosses x y x1 y1 x2 y2 ;;
        pip_loop poly x y rest (if c then negb inside else inside)
  end.

Definition point_in_polygon (poly : Polygon) (pt : point) : result bool :=
  let '(x, y) := pt in
  pip_loop poly x y (seq 0 (length poly)) false.

(** The values of [math.cos] and [math.sin] of CPython on x86-64 Linux
    (glibc) at [math.radians(a)] for [a] in [range(0, 360, 60)]: each row
    is the angle in radians, its cosine and its sine. *)
Definition trig_table : list (float * (float * float)) :=
  [ (0, (1, 0));
    (0x1.0c152382d7365p+0, (0x1.0000000000001p-1, 0x1.bb67ae8584caap-1));
    (0x1.0c152382d7365p+1, (-0x1.ffffffffffffcp-2, 0x1.bb67ae8584cabp-1));
    (0x1.921fb54442d18p+1, (-1, 0x1.1a62633145c07p-53));
    (0x1.0c152382d7365p+2, (-0x1.0000000000004p-1, -0x1.bb67ae8584ca8p-1));
    (0x1.4f1a6c638d03fp+2, (0x1.0000000000001p-1, -0x1.bb67ae8584caap-1))
  ]%float.

Fixpoint trig_at (x : float) (table : list (float * (float * float)))
  : float * float :=
  match table with
  | [] => (nan, nan)
  | (a, cs) :: rest => if PrimFloat.eqb x a then cs else trig_at x rest
  end.

Definition libm_cos (x : float) : float := fst (trig_at x trig_table).
Definition libm_sin (x : float) : float := snd (trig_at x trig_table).

(** The floats [0.0], [1.0], [-1.0], [1e16], [1e200] and [2.0 ** 53]. *)
Definition f0 : float := 0%float.
Definition f1 : float := 1%float.
Definition minus1 : float := (-1)%float.
Definition f1e16 : float := 1e16%float.
Definition f1e200 : float := 0x1.4e718d7d7625ap+664%float.
Definition two53 : float := 0x1p+53%float.

End B64.

(** Whether a result is the float [0.0]. *)
Definition is_float_zero (r : B64.result B64.num) : bool :=
  match r with
  | B64.Value (B64.Flt f) => PrimFloat.eqb f B64.f0
  | _ => false
  end.

(** * Properties *)

(** ** Comparisons *)

Section Comparisons.

Variables a b : R.

Lemma Rltb_true_iff : Rltb a b = true <-> a < b.
Proof. unfold Rltb. destruct (Rlt_dec a b); split; intros; easy. Qed.

Lemma Rltb_false_iff : Rltb a b = false <-> b <= a.
Proof.
  unfold Rltb. destruct (Rlt_dec a b); split; intros; try easy; lra.
Qed.

Lemma Rleb_true_iff : Rleb a b = true <-> a <= b.
Proof. unfold Rleb. destruct (Rle_dec a b); split; intros; easy. Qed.

Lemma Rleb_false_iff : Rleb a b = false <-> b < a.
Proof.
  unfold Rleb. destruct (Rle_dec a b); split; intros; try easy; lra.
Qed.

Lemma py_min_Rmin : py_min a b = Rmin a b.
Proof.
  unfold py_min, Rmin, Rltb.
  destruct (Rlt_dec b a), (Rle_dec a b); lra.
Qed.

Lemma py_max_Rmax : py_max a b = Rmax a b.
Proof.
  unfold py_max, Rmax, Rgtb, Rltb.
  destruct (Rlt_dec a b), (Rle_dec a b); lra.
Qed.

End Comparisons.

Lemma tol_value : tol = 1 / 10 ^ 12.
Proof. unfold tol. lra. Qed.

(** Deciding the comparisons of a closed expression, innermost first. *)
Ltac rcompare :=
  match goal with
  | |- context [Rltb ?u ?v] =>
      first [ rewrite (proj2 (Rltb_true_iff u v)) by lra
            | rewrite (proj2 (Rltb_false_iff u v)) by lra ]
  | |- context [Rleb ?u ?v] =>
      first [ rewrite (proj2 (Rleb_true_iff u v)) by lra
            | rewrite (proj2 (Rleb_false_iff u v)) by lra ]
  | |- context [Rabs ?u] =>
      first [ rewrite (Rabs_pos_eq u) by lra
            | rewrite (Rabs_left1 u) by lra ]
  end.

Ltac reval :=
  unfold on_edgeb, crossesb, on_edge, crosses, straddles, py_min, py_max,
    Rgtb, Rgeb, tol;
  repeat (rcompare; cbn [andb orb negb Bool.eqb xorb]).

(** ** The loop of [point_in_polygon] *)

Section PipLoop.

Variable poly : Polygon.
Variables x y : R.

Let edge_at (i : nat) : point * point :=
  (vertex poly i, vertex poly ((i + 1) mod length poly)).

Lemma pip_loop_char (idx : list nat) (inside : bool) :
  pip_loop poly x y idx inside =
  existsb (on_edgeb x y) (map edge_at idx)
  || xorb inside (parityb (crossesb x y) (map edge_at idx)).
Proof.
  revert inside. induction idx as [|i rest IH]; intros inside.
  - cbn. now destruct inside.
  - cbn [pip_loop map existsb parityb fold_right].
    fold (parityb (crossesb x y) (map edge_at rest)).
    unfold edge_at at 1 3. unfold on_edgeb at 1, crossesb at 1.
    destruct (vertex poly i) as [x1 y1].
    destruct (vertex poly ((i + 1) mod length poly)) as [x2 y2].
    destruct (on_edge x y x1 y1 x2 y2); [reflexivity|].
    destruct (crosses x y x1 y1 x2 y2); rewrite IH; cbn [orb].
    + f_equal. now destruct inside, (parityb (crossesb x y) (map edge_at rest)).
    + reflexivity.
Qed.

End PipLoop.

Lemma point_in_polygon_char (poly : Polygon) (x y : R) :
  point_in_polygon poly (x, y) =
  existsb (on_edgeb x y) (edge_list poly)
  || parityb (crossesb x y) (edge_list poly).
Proof.
  unfold point_in_polygon. rewrite pip_loop_char. reflexivity.
Qed.

Ltac edges_of :=
  cbv [edge_list gen_rectangle arrow map seq length vertex nth Nat.modulo
       Nat.divmod Nat.add Nat.sub fst snd];
  cbn [existsb parityb fold_right forallb].

Lemma parityb_odd {A : Type} (f : A -> bool) (l : list A) :
  parityb f l = Nat.odd (length (filter f l)).
Proof.
  induction l as [|e l IH]; [reflexivity|].
  cbn [parityb fold_right filter]. fold (parityb f l). rewrite IH.
  destruct (f e); cbn [length xorb]; [|reflexivity].
  now rewrite Nat.odd_succ, <- Nat.negb_odd.
Qed.

Lemma on_edgeb_iff (x y : R) (e : point * point) :
  on_edgeb x y e = true <-> OnEdge x y e.
Proof.
  destruct e as [[x1 y1] [x2 y2]]. unfold on_edgeb, on_edge, OnEdge.
  rewrite !andb_true_iff, !Rleb_true_iff, Rltb_true_iff.
  rewrite !py_min_Rmin, !py_max_Rmax, tol_value. tauto.
Qed.

Lemma straddles_iff (y y1 y2 : R) :
  straddles y y1 y2 = true <->
  (y1 > y /\ ~ y2 > y) \/ (~ y1 > y /\ y2 > y).
Proof.
  unfold straddles, Rgtb, Rltb.
  destruct (Rlt_dec y y1), (Rlt_dec y y2); cbn; split; intros H;
    try discriminate; try reflexivity; try tauto; lra.
Qed.

Lemma crossesb_iff (x y : R) (e : point * point) :
  crossesb x y e = true <-> Crossing x y e.
Proof.
  destruct e as [[x1 y1] [x2 y2]]. unfold crossesb, crosses, Crossing.
  now rewrite andb_true_iff, straddles_iff, Rltb_true_iff.
Qed.

(** The guard of the division: ends on different sides of the line have
    different ordinates. *)
Lemma straddles_neq (y y1 y2 : R) :
  straddles y y1 y2 = true -> y2 - y1 <> 0.
Proof. rewrite straddles_iff. lra. Qed.

Lemma crosses_chk_total (x y x1 y1 x2 y2 : R) :
  crosses_chk x y x1 y1 x2 y2 = Some (crosses x y x1 y1 x2 y2).
Proof.
  unfold crosses_chk, crosses, py_div.
  destruct (straddles y y1 y2) eqn:G; [|reflexivity].
  destruct (Req_dec_T (y2 - y1) 0) as [Z|_]; [|reflexivity].
  now apply straddles_neq in G.
Qed.

Lemma pip_loop_chk_total (poly : Polygon) (x y : R) (idx : list nat) :
  forall inside,
    pip_loop_chk poly x y idx inside = Some (pip_loop poly x y idx inside).
Proof.
  induction idx as [|i rest IH]; intros inside; [reflexivity|].
  cbn [pip_loop_chk pip_loop].
  destruct (vertex poly i) as [x1 y1].
  destruct (vertex poly ((i + 1) mod length poly)) as [x2 y2].
  destruct (on_edge x y x1 y1 x2 y2); [reflexivity|].
  rewrite crosses_chk_total.
  destruct (crosses x y x1 y1 x2 y2); apply IH.
Qed.

(** C1.  A point that is in the bounding box of an edge with a cross term
    below [1e-12] is inside; when no edge is such, the point is inside
    exactly when the number of edges its ray crosses is odd, an edge being
    crossed when its ends are on different sides of the horizontal line and
    the point is left of the intercept.  On the rectangle 2 x 2 the point
    (1, 1) is inside, (3, 3) is not, and (0, 1), on an edge, is inside. *)
Theorem point_in_polygon_rule :
  (forall poly x y e,
      In e (edge_list poly) -> OnEdge x y e ->
      point_in_polygon poly (x, y) = true) /\
  (forall poly x y,
      (forall e, In e (edge_list poly) -> ~ OnEdge x y e) ->
      point_in_polygon poly (x, y) =
      Nat.odd (length (filter (crossesb x y) (edge_list poly)))) /\
  (forall x y e, crossesb x y e = true <-> Crossing x y e) /\
  point_in_polygon (gen_rectangle 2 2) (1, 1) = true /\
  point_in_polygon (gen_rectangle 2 2) (3, 3) = false /\
  point_in_polygon (gen_rectangle 2 2) (0, 1) = true.
Proof.
  split; [|split; [|split; [|split; [|split]]]].
  - intros poly x y e Hin Hon. rewrite point_in_polygon_char.
    apply orb_true_iff. left. apply existsb_exists.
    exists e. split; [exact Hin|]. now apply on_edgeb_iff.
  - intros poly x y Hno. rewrite point_in_polygon_char, parityb_odd.
    replace (existsb (on_edgeb x y) (edge_list poly)) with false;
      [reflexivity|].
    symmetry. apply not_true_is_false. intros Hex.
    apply existsb_exists in Hex. destruct Hex as [e [Hin Hon]].
    apply (Hno e Hin). now apply on_edgeb_iff.
  - exact crossesb_iff.
  - rewrite point_in_polygon_char. edges_of. now reval.
  - rewrite point_in_polygon_char. edges_of. now reval.
  - rewrite point_in_polygon_char. edges_of. now reval.
Qed.

(** The rules of C1 at the rectangle 2 x 2: (0, 1) is on the edge from
    (0, 0) to (0, 2); no edge holds (1, 1), and its ray crosses one edge. *)
Lemma point_in_polygon_rule_witness :
  point_in_polygon (gen_rectangle 2 2) (0, 1) = true /\
  point_in_polygon (gen_rectangle 2 2) (1, 1) =
  Nat.odd (length (filter (crossesb 1 1) (edge_list (gen_rectangle 2 2)))).
Proof.
  split.
  - apply (proj1 point_in_polygon_rule (gen_rectangle 2 2) 0 1
             ((0, 0), (0, 2))).
    + cbv [edge_list gen_rectangle map seq length vertex nth Nat.modulo
           Nat.divmod Nat.add Nat.sub fst snd In]. now left.
    + unfold OnEdge. rewrite <- !py_min_Rmin, <- !py_max_Rmax.
      unfold py_min, py_max, Rgtb. repeat rcompare. lra.
  - apply (proj1 (proj2 point_in_polygon_rule) (gen_rectangle 2 2) 1 1).
    intros e Hin Hon. apply on_edgeb_iff in Hon. revert Hon.
    cbv [edge_list gen_rectangle map seq length vertex nth Nat.modulo
         Nat.divmod Nat.add Nat.sub fst snd In] in Hin.
    destruct Hin as [<-|[<-|[<-|[<-|[]]]]]; now reval.
Defined.

(** X24.  Over the reals, where the guard and the subtraction share one
    exact arithmetic, [point_in_polygon] never divides by zero: run with
    the division checked, it returns the value of the unchecked run, for
    every polygon and point. *)
Theorem point_in_polygon_no_zero_division (poly : Polygon) (pt : point) :
  point_in_polygon_chk poly pt <> None /\
  point_in_polygon_chk poly pt = Some (point_in_polygon poly pt).
Proof.
  destruct pt as [x y]. unfold point_in_polygon_chk, point_in_polygon.
  rewrite pip_loop_chk_total. split; [discriminate|reflexivity].
Qed.

(** ** Generators *)

Ltac run_kernel :=
  cbv [shoelace_sum signed_area polygon_area is_convex cross_at fold_left
       gen_rectangle gen_triangle arrow map seq length vertex nth
       Nat.modulo Nat.divmod Nat.add Nat.sub Nat.ltb Nat.leb fst snd];
  cbn [forallb existsb].

Lemma signed_area_rectangle (w h : R) :
  signed_area (gen_rectangle w h) = - (w * h).
Proof. run_kernel. lra. Qed.

(** C2, as the code has it.  For [w > 0] and [h > 0], [gen_rectangle w h]
    is the four vertices (0,0), (0,h), (w,h), (w,0) in that order, and the
    order is clockwise: the signed shoelace area is [- (w * h)], which is
    negative. *)
Theorem gen_rectangle_clockwise (w h : R) :
  0 < w -> 0 < h ->
  gen_rectangle w h = [(0, 0); (0, h); (w, h); (w, 0)] /\
  signed_area (gen_rectangle w h) = - (w * h) /\
  signed_area (gen_rectangle w h) < 0.
Proof.
  intros Hw Hh. split; [reflexivity|].
  rewrite signed_area_rectangle. split; [reflexivity|nra].
Qed.

Lemma gen_rectangle_clockwise_witness :
  gen_rectangle 2 3 = [(0, 0); (0, 3); (2, 3); (2, 0)] /\
  signed_area (gen_rectangle 2 3) = - (2 * 3) /\
  signed_area (gen_rectangle 2 3) < 0.
Proof. apply (gen_rectangle_clockwise 2 3); lra. Defined.

(** C2, as stated, fails at the unit square: its signed shoelace area is
    not positive. *)
Lemma gen_rectangle_not_counter_clockwise :
  ~ (forall w h : R,
        0 < w -> 0 < h ->
        gen_rectangle w h = [(0, 0); (0, h); (w, h); (w, 0)] /\
        0 < signed_area (gen_rectangle w h)).
Proof.
  intros H. destruct (H 1 1) as [_ Hpos]; try lra.
  rewrite signed_area_rectangle in Hpos. lra.
Qed.



Lemma sqrt3_pos : 0 < sqrt 3.
Proof. apply sqrt_lt_R0. lra. Qed.

Lemma is_convex_rectangle (w h : R) :
  0 < w -> 0 < h -> is_convex (gen_rectangle w h) = true.
Proof.
  intros Hw Hh. run_kernel. apply orb_true_iff. right.
  rewrite !andb_true_iff, !Rleb_true_iff. nra.
Qed.

Lemma is_convex_triangle (s : R) :
  0 < s -> is_convex (gen_triangle s) = true.
Proof.
  intros Hs. run_kernel. apply orb_true_iff. left. unfold Rgeb.
  pose proof sqrt3_pos as Hr. set (r := sqrt 3) in *.
  assert (0 < s * r) by nra.
  rewrite !andb_true_iff, !Rleb_true_iff. nra.
Qed.

(** The sines and cosines of the six angles of [gen_hexagon]. *)
Lemma hexagon_angles :
  map (fun a => radians (IZR a)) (range3 0 360 60) =
  [0; PI / 3; 2 * (PI / 3); PI; PI / 3 + PI; 2 * (PI / 3) + PI].
Proof.
  change (range3 0 360 60) with [0; 60; 120; 180; 240; 300]%Z.
  cbn [map]. unfold radians.
  repeat (apply (f_equal2 cons); [lra|]). reflexivity.
Qed.

Lemma gen_hexagon_vertices (s : R) :
  gen_hexagon s =
  [(s, 0); (s / 2, s * sqrt 3 / 2); (- s / 2, s * sqrt 3 / 2);
   (- s, 0); (- s / 2, - s * sqrt 3 / 2); (s / 2, - s * sqrt 3 / 2)].
Proof.
  unfold gen_hexagon.
  rewrite <- (map_map (fun a => radians (IZR a))
                      (fun t => (s * cos t, s * sin t))).
  rewrite hexagon_angles. cbn [map].
  rewrite !neg_cos, !neg_sin, cos_0, sin_0, cos_PI, sin_PI.
  rewrite cos_PI3, sin_PI3, cos_2PI3, sin_2PI3.
  repeat (apply (f_equal2 cons); [apply f_equal2; lra|]). reflexivity.
Qed.

Lemma is_convex_hexagon (s : R) :
  0 < s -> is_convex (gen_hexagon s) = true.
Proof.
  intros Hs. rewrite gen_hexagon_vertices. run_kernel.
  apply orb_true_iff. left. unfold Rgeb.
  pose proof sqrt3_pos as Hr. set (r := sqrt 3) in *.
  assert (0 < s * s * r) by (apply Rmult_lt_0_compat; nra).
  rewrite !andb_true_iff, !Rleb_true_iff. repeat split; nra.
Qed.

(** C8, as amended.  Over exact real arithmetic, for strictly positive
    dimensions the generated rectangle, triangle and hexagon are
    convex. *)
Theorem generators_convex (w h s : R) :
  0 < w -> 0 < h -> 0 < s ->
  is_convex (gen_rectangle w h) = true /\
  is_convex (gen_triangle s) = true /\
  is_convex (gen_hexagon s) = true.
Proof.
  intros Hw Hh Hs.
  split; [now apply is_convex_rectangle|].
  split; [now apply is_convex_triangle|now apply is_convex_hexagon].
Qed.

Lemma generators_convex_witness :
  is_convex (gen_rectangle 1 (3 / 2)) = true /\
  is_convex (gen_triangle 1) = true /\
  is_convex (gen_hexagon 1) = true.
Proof. apply (generators_convex 1 (3 / 2) 1); lra. Defined.

(** ** Transformations *)

(** C10.  [tr_symmetry] is total in its axis: axis ["x"] maps each vertex
    [(x, y)] to [(x, - y)], and every other axis string, not only ["y"],
    maps each vertex [(x, y)] to [(- x, y)]. *)
Theorem tr_symmetry_total (poly : Polygon) (axis : string) :
  tr_symmetry poly "x" = map (fun p => (fst p, - snd p)) poly /\
  (axis <> "x"%string ->
   tr_symmetry poly axis = map (fun p => (- fst p, snd p)) poly).
Proof.
  split.
  - unfold tr_symmetry. rewrite String.eqb_refl.
    apply map_ext. now intros [x y].
  - intros Hax. unfold tr_symmetry.
    apply String.eqb_neq in Hax. rewrite Hax.
    apply map_ext. now intros [x y].
Qed.

Lemma tr_symmetry_total_witness :
  tr_symmetry [(1, 2); (3, 4)] "x" = [(1, - 2); (3, - 4)] /\
  tr_symmetry [(1, 2); (3, 4)] "diagonal" = [(- 1, 2); (- 3, 4)].
Proof.
  destruct (tr_symmetry_total [(1, 2); (3, 4)] "diagonal") as [Hx Hother].
  split; [exact Hx|]. apply Hother. discriminate.
Defined.

(** ** Aggregates *)

(** C5.  On an empty sequence [agr_origin_nearest] returns
    [(inf, inf)], [agr_max_side] returns 0.0 (and does not raise),
    [agr_min_area] returns [inf], [agr_perimeter] and [agr_area]
    return 0.0. *)
Theorem aggregates_of_nothing :
  agr_origin_nearest [] = (PInf, PInf) /\
  agr_max_side [] = Some 0 /\
  agr_min_area [] = PInf /\
  agr_perimeter [] = 0 /\
  agr_area [] = 0.
Proof. repeat split. Qed.

(** ** Filters *)

Lemma arrow_not_convex : is_convex arrow = false.
Proof.
  run_kernel. unfold Rgeb. repeat (rcompare; cbn [andb orb]). reflexivity.
Qed.

Lemma arrow_holds_2_2 : point_in_polygon arrow (2, 2) = true.
Proof. rewrite point_in_polygon_char. edges_of. now reval. Qed.

(** C4.  [flt_point_inside] passes exactly the polygons of the sequence
    that are convex and contain the point; a polygon that is not convex is
    never passed, as the arrow head, which [point_in_polygon] finds to
    hold (2, 2). *)
Theorem flt_point_inside_convex_only :
  (forall polygons pt p,
      In p (flt_point_inside polygons pt) <->
      In p polygons /\ is_convex p = true /\ point_in_polygon p pt = true) /\
  (forall polygons pt p,
      is_convex p = false -> ~ In p (flt_point_inside polygons pt)) /\
  is_convex arrow = false /\
  point_in_polygon arrow (2, 2) = true /\
  flt_point_inside [arrow] (2, 2) = [].
Proof.
  assert (Hmem : forall polygons pt p,
             In p (flt_point_inside polygons pt) <->
             In p polygons /\ is_convex p = true /\
             point_in_polygon p pt = true).
  { intros polygons pt p. unfold flt_point_inside.
    now rewrite filter_In, andb_true_iff. }
  split; [exact Hmem|]. split.
  - intros polygons pt p Hnc Hin. apply Hmem in Hin.
    destruct Hin as [_ [Hc _]]. congruence.
  - split; [exact arrow_not_convex|]. split; [exact arrow_holds_2_2|].
    unfold flt_point_inside. cbn [filter].
    now rewrite arrow_not_convex.
Qed.

Lemma flt_point_inside_convex_only_witness :
  ~ In arrow (flt_point_inside [gen_rectangle 4 4; arrow] (2, 2)).
Proof.
  apply (proj1 (proj2 flt_point_inside_convex_only)).
  exact arrow_not_convex.
Defined.

(** ** The shoelace sum under an affine map *)

Lemma Rsum_linear {A : Type} (k : R) (f g : A -> R) (l : list A) :
  Rsum (map (fun e => k * f e + g e) l) =
  k * Rsum (map f l) + Rsum (map g l).
Proof.
  induction l as [|e l IH]; cbn [map Rsum fold_right].
  - lra.
  - fold (Rsum (map (fun e => k * f e + g e) l)).
    fold (Rsum (map f l)). fold (Rsum (map g l)). rewrite IH. lra.
Qed.

Lemma shoelace_sum_edges (poly : Polygon) :
  shoelace_sum poly = Rsum (map shoelace_term (edge_list poly)).
Proof.
  unfold shoelace_sum, edge_list.
  rewrite <- (Rplus_0_l (Rsum _)). generalize 0.
  induction (seq 0 (length poly)) as [|i idx IH]; intros acc.
  - cbn [fold_left map Rsum fold_right]. lra.
  - cbn [fold_left map Rsum fold_right]. rewrite IH.
    unfold shoelace_term at 2. unfold Rsum.
    destruct (vertex poly i) as [x1 y1].
    destruct (vertex poly ((i + 1) mod length poly)) as [x2 y2]. lra.
Qed.

(** The edges pair each vertex with the next one, the last with the
    first. *)
Lemma edge_list_cyclic (a : point) (l : Polygon) :
  edge_list (a :: l) = combine (a :: l) (l ++ [a]).
Proof.
  apply (nth_ext _ _ (origin, origin) (origin, origin)).
  - unfold edge_list. rewrite length_map, length_seq, length_combine.
    rewrite length_app. cbn [length]. lia.
  - unfold edge_list. rewrite length_map, length_seq. intros i Hi.
    rewrite (nth_indep _ _
               (vertex (a :: l) 0,
                vertex (a :: l) ((0 + 1) mod length (a :: l))))
      by now rewrite length_map, length_seq.
    rewrite (map_nth (fun i => (vertex (a :: l) i,
                                vertex (a :: l) ((i + 1) mod length (a :: l))))).
    rewrite seq_nth by exact Hi. rewrite combine_nth
      by (rewrite length_app; cbn; lia).
    cbn [Nat.add]. f_equal. unfold vertex. cbn [length] in *.
    destruct (Nat.eq_dec (i + 1) (S (length l))) as [E|E].
    + rewrite E, Nat.Div0.mod_same. cbn [nth].
      replace i with (length l) by lia.
      now rewrite nth_middle.
    + rewrite Nat.mod_small by lia.
      replace (i + 1)%nat with (S i) by lia. cbn [nth].
      now rewrite app_nth1 by lia.
Qed.

Lemma Rsum_telescope (G : point -> R) (l : Polygon) :
  forall a b,
    Rsum (map (fun e => G (snd e) - G (fst e)) (combine (a :: l) (l ++ [b])))
    = G b - G a.
Proof.
  induction l as [|c l IH]; intros a b.
  - cbn [app combine map Rsum fold_right fst snd]. lra.
  - change (combine (a :: c :: l) ((c :: l) ++ [b]))
      with ((a, c) :: combine (c :: l) (l ++ [b])).
    cbn [map Rsum fold_right fst snd]. fold (Rsum
      (map (fun e => G (snd e) - G (fst e)) (combine (c :: l) (l ++ [b])))).
    rewrite IH. lra.
Qed.

Lemma edge_list_map (T : point -> point) (poly : Polygon) :
  edge_list (map T poly) =
  map (fun e => (T (fst e), T (snd e))) (edge_list poly).
Proof.
  destruct poly as [|a l]; [reflexivity|].
  change (map T (a :: l)) with (T a :: map T l).
  rewrite !edge_list_cyclic.
  change [T a] with (map T [a]). rewrite <- map_app.
  change (T a :: map T l) with (map T (a :: l)).
  generalize (a :: l) (l ++ [a]). intros l1.
  induction l1 as [|p l1 IH]; intros [|q l2]; cbn; try reflexivity.
  now rewrite IH.
Qed.

Lemma shoelace_sum_affine (a b c d e f : R) (poly : Polygon) :
  shoelace_sum (map (affine a b c d e f) poly) =
  (a * d - b * c) * shoelace_sum poly.
Proof.
  rewrite !shoelace_sum_edges, edge_list_map, map_map.
  set (G := fun p : point => (e * c - a * f) * fst p + (e * d - b * f) * snd p).
  rewrite (map_ext _ (fun ed => (a * d - b * c) * shoelace_term ed
                                + (G (snd ed) - G (fst ed)))).
  - rewrite Rsum_linear.
    destruct poly as [|p l]; [cbn [edge_list length seq map Rsum fold_right]; lra|].
    rewrite edge_list_cyclic at 2. rewrite Rsum_telescope. lra.
  - intros [[x1 y1] [x2 y2]]. unfold G, shoelace_term, affine.
    cbn [fst snd]. ring.
Qed.

(** Each transformation is an affine map of the vertices. *)
Lemma tr_translate_affine (poly : Polygon) (dx dy : R) :
  tr_translate poly dx dy = map (affine 1 0 0 1 dx dy) poly.
Proof.
  apply map_ext. intros [x y]. unfold affine. f_equal; ring.
Qed.

Lemma tr_rotate_affine (poly : Polygon) (angle_deg cx cy : R) :
  let s := sin (radians angle_deg) in
  let c := cos (radians angle_deg) in
  tr_rotate poly angle_deg cx cy =
  map (affine c (- s) s c (cx - cx * c + cy * s) (cy - cx * s - cy * c)) poly.
Proof.
  apply map_ext. intros [x y]. unfold affine. f_equal; ring.
Qed.

Lemma tr_symmetry_affine (poly : Polygon) (axis : string) :
  tr_symmetry poly axis =
  if String.eqb axis "x"
  then map (affine 1 0 0 (- 1) 0 0) poly
  else map (affine (- 1) 0 0 1 0 0) poly.
Proof.
  unfold tr_symmetry. destruct (String.eqb axis "x");
    apply map_ext; intros [x y]; unfold affine; f_equal; ring.
Qed.

Lemma tr_homothety_affine (poly : Polygon) (k cx cy : R) :
  tr_homothety poly k cx cy =
  map (affine k 0 0 k (cx - cx * k) (cy - cy * k)) poly.
Proof.
  apply map_ext. intros [x y]. unfold affine. f_equal; ring.
Qed.

Lemma sin2_cos2_radians (t : R) :
  cos (radians t) * cos (radians t) + sin (radians t) * sin (radians t) = 1.
Proof. pose proof (sin2_cos2 (radians t)) as H. unfold Rsqr in H. lra. Qed.

Lemma polygon_area_nonneg (poly : Polygon) : 0 <= polygon_area poly.
Proof.
  unfold polygon_area. pose proof (Rabs_pos (shoelace_sum poly)). lra.
Qed.

(** C3, as amended.  Over exact real arithmetic (every coordinate,
    offset, angle and ratio a real number, every operation exact): the
    area of a polygon is not negative; translating, reflecting (about
    either axis) and rotating a polygon keep its area; a homothety of
    ratio [k] multiplies it by [k ^ 2]. *)
Theorem polygon_area_laws (poly : Polygon) (dx dy angle_deg cx cy k : R)
  (axis : string) :
  0 <= polygon_area poly /\
  polygon_area (tr_translate poly dx dy) = polygon_area poly /\
  polygon_area (tr_symmetry poly axis) = polygon_area poly /\
  polygon_area (tr_rotate poly angle_deg cx cy) = polygon_area poly /\
  polygon_area (tr_homothety poly k cx cy) = k ^ 2 * polygon_area poly.
Proof.
  split; [apply polygon_area_nonneg|].
  unfold polygon_area. repeat split.
  - rewrite tr_translate_affine, shoelace_sum_affine.
    f_equal. f_equal. ring.
  - rewrite tr_symmetry_affine.
    destruct (String.eqb axis "x"); rewrite shoelace_sum_affine;
      rewrite <- (Rabs_Ropp (shoelace_sum poly)); f_equal; f_equal; ring.
  - rewrite tr_rotate_affine, shoelace_sum_affine.
    f_equal. f_equal.
    pose proof (sin2_cos2_radians angle_deg) as H.
    replace (cos (radians angle_deg) * cos (radians angle_deg)
             - - sin (radians angle_deg) * sin (radians angle_deg))
      with 1 by lra.
    ring.
  - rewrite tr_homothety_affine, shoelace_sum_affine.
    replace (k * k - 0 * 0) with (k ^ 2) by ring.
    rewrite Rabs_mult, (Rabs_pos_eq (k ^ 2)) by (apply pow2_ge_0).
    lra.
Qed.

(** C7.  Over the reals, translating by [(dx, dy)] and then by
    [(- dx, - dy)] gives the polygon back, and so does rotating by
    [theta] and then by [- theta] about the same centre. *)
Theorem transform_round_trips (poly : Polygon) (dx dy theta cx cy : R) :
  tr_translate (tr_translate poly dx dy) (- dx) (- dy) = poly /\
  tr_rotate (tr_rotate poly theta cx cy) (- theta) cx cy = poly.
Proof.
  split.
  - unfold tr_translate. rewrite map_map. rewrite <- (map_id poly) at 2.
    apply map_ext. intros [x y]. f_equal; ring.
  - unfold tr_rotate. rewrite map_map. rewrite <- (map_id poly) at 2.
    apply map_ext. intros [x y].
    replace (radians (- theta)) with (- radians theta)
      by (unfold radians; lra).
    rewrite sin_neg, cos_neg.
    pose proof (sin2_cos2_radians theta) as H.
    set (s := sin (radians theta)) in *.
    set (c := cos (radians theta)) in *.
    f_equal.
    + replace (cx + (cx + (x - cx) * c - (y - cy) * s - cx) * c
               - (cy + (x - cx) * s + (y - cy) * c - cy) * - s)
        with (cx + (x - cx) * (c * c + s * s)) by ring.
      rewrite H. ring.
    + replace (cy + (cx + (x - cx) * c - (y - cy) * s - cx) * - s
               + (cy + (x - cx) * s + (y - cy) * c - cy) * c)
        with (cy + (y - cy) * (c * c + s * s)) by ring.
      rewrite H. ring.
Qed.

(** ** The aggregates on sequences that are not empty *)

Lemma hypot_ltb (a b c d : R) :
  Rltb (hypot a b) (hypot c d) = Rltb (a * a + b * b) (c * c + d * d).
Proof.
  unfold hypot.
  assert (Ha : 0 <= a * a + b * b) by nra.
  assert (Hc : 0 <= c * c + d * d) by nra.
  destruct (Rltb (a * a + b * b) (c * c + d * d)) eqn:E.
  - apply Rltb_true_iff. apply Rltb_true_iff in E. now apply sqrt_lt_1.
  - apply Rltb_false_iff. apply Rltb_false_iff in E. now apply sqrt_le_1.
Qed.

Lemma min_key_cons {A : Type} (key : A -> xreal) (first e : A)
  (rest : list A) :
  min_key key first (e :: rest) =
  min_key key (if xltb (key e) (key first) then e else first) rest.
Proof. reflexivity. Qed.

Example agr_origin_nearest_moved_square :
  agr_origin_nearest [tr_translate (gen_rectangle 2 2) 5 5]
  = (Fin (0 + 5), Fin (0 + 5)).
Proof.
  unfold agr_origin_nearest, tr_translate, gen_rectangle.
  cbn [fold_left map app]. unfold fin_point. cbn [fst snd].
  do 3 (rewrite min_key_cons; cbn [xhypot xltb fst snd];
        rewrite hypot_ltb; rcompare).
  rewrite min_key_cons. cbn [xhypot xltb fst snd]. reflexivity.
Qed.

Example agr_area_two_rectangles :
  agr_area [gen_rectangle 1 (3 / 2); gen_rectangle 10 10] = 3 / 2 + 100
  /\ agr_min_area [gen_rectangle 1 (3 / 2); gen_rectangle 10 10]
     = Fin (polygon_area (gen_rectangle 1 (3 / 2)))
  /\ flt_square [gen_rectangle 1 (3 / 2); gen_rectangle 10 10] 5
     = [gen_rectangle 1 (3 / 2)].
Proof.
  assert (A1 : polygon_area (gen_rectangle 1 (3 / 2)) = 3 / 2).
  { run_kernel. rewrite Rabs_left1 by lra. lra. }
  assert (A2 : polygon_area (gen_rectangle 10 10) = 100).
  { run_kernel. rewrite Rabs_left1 by lra. lra. }
  unfold agr_area, agr_min_area, flt_square.
  cbn [fold_left filter]. unfold xmin, xltb. rewrite !A1, !A2.
  repeat rcompare. repeat split. lra.
Qed.

(** * Further properties of the code *)

(** ** How the transformations compose *)

Lemma map_pointwise_id (f : point -> point) (poly : Polygon) :
  (forall p, f p = p) -> map f poly = poly.
Proof.
  intros Hf. rewrite <- (map_id poly) at 2. now apply map_ext.
Qed.

(** X1.  A reflection is an involution, for every axis string; the
    reflections about the two axes commute, and one after the other is
    the point inversion about the origin, [tr_homothety] of ratio [-1]. *)
Theorem tr_symmetry_compose (poly : Polygon) (axis : string) :
  tr_symmetry (tr_symmetry poly axis) axis = poly /\
  tr_symmetry (tr_symmetry poly "x") "y"
  = tr_symmetry (tr_symmetry poly "y") "x" /\
  tr_symmetry (tr_symmetry poly "x") "y" = tr_homothety poly (- 1) 0 0.
Proof.
  split; [|split].
  - unfold tr_symmetry. destruct (String.eqb axis "x");
      rewrite map_map; apply map_pointwise_id; intros [x y]; f_equal; ring.
  - unfold tr_symmetry. cbn [String.eqb Ascii.eqb Bool.eqb].
    rewrite !map_map. apply map_ext. now intros [x y].
  - unfold tr_symmetry, tr_homothety. cbn [String.eqb Ascii.eqb Bool.eqb].
    rewrite map_map. apply map_ext. intros [x y]. f_equal; ring.
Qed.

(** X2.  Translations compose by adding their offsets, and the
    translation by (0, 0) changes nothing. *)
Theorem tr_translate_compose (poly : Polygon) (dx1 dy1 dx2 dy2 : R) :
  tr_translate (tr_translate poly dx1 dy1) dx2 dy2
  = tr_translate poly (dx1 + dx2) (dy1 + dy2) /\
  tr_translate poly 0 0 = poly.
Proof.
  unfold tr_translate. split.
  - rewrite map_map. apply map_ext. intros [x y]. f_equal; ring.
  - apply map_pointwise_id. intros [x y]. f_equal; ring.
Qed.

(** X3.  Rotations about one centre compose by adding their angles; the
    rotations by 0 and by 360 degrees change nothing, and the rotation by
    180 degrees is the homothety of ratio [-1] about the centre. *)
Theorem tr_rotate_compose (poly : Polygon) (a1 a2 cx cy : R) :
  tr_rotate (tr_rotate poly a1 cx cy) a2 cx cy
  = tr_rotate poly (a1 + a2) cx cy /\
  tr_rotate poly 0 cx cy = poly /\
  tr_rotate poly 360 cx cy = poly /\
  tr_rotate poly 180 cx cy = tr_homothety poly (- 1) cx cy.
Proof.
  unfold tr_rotate, tr_homothety. repeat split.
  - rewrite map_map. apply map_ext. intros [x y].
    replace (radians (a1 + a2)) with (radians a1 + radians a2)
      by (unfold radians; lra).
    rewrite sin_plus, cos_plus. f_equal; ring.
  - replace (radians 0) with 0 by (unfold radians; lra).
    rewrite sin_0, cos_0.
    apply map_pointwise_id. intros [x y]. f_equal; ring.
  - replace (radians 360) with (2 * PI) by (unfold radians; lra).
    rewrite sin_2PI, cos_2PI.
    apply map_pointwise_id. intros [x y]. f_equal; ring.
  - replace (radians 180) with PI by (unfold radians; lra).
    rewrite sin_PI, cos_PI.
    apply map_ext. intros [x y]. f_equal; ring.
Qed.

(** X4.  Over the reals, homotheties about one centre compose by
    multiplying their ratios; the ratio 1 changes nothing, and a ratio [k] other than 0 is
    undone by the ratio [1 / k]. *)
Theorem tr_homothety_compose (poly : Polygon) (k1 k2 cx cy : R) :
  tr_homothety (tr_homothety poly k1 cx cy) k2 cx cy
  = tr_homothety poly (k1 * k2) cx cy /\
  tr_homothety poly 1 cx cy = poly /\
  (k1 <> 0 ->
   tr_homothety (tr_homothety poly k1 cx cy) (1 / k1) cx cy = poly).
Proof.
  unfold tr_homothety. repeat split.
  - rewrite map_map. apply map_ext. intros [x y]. f_equal; ring.
  - apply map_pointwise_id. intros [x y]. f_equal; ring.
  - intros Hk. rewrite map_map.
    apply map_pointwise_id. intros [x y]. f_equal; field; exact Hk.
Qed.

Lemma tr_homothety_compose_witness :
  tr_homothety (tr_homothety (gen_rectangle 2 3) 4 1 1) (1 / 4) 1 1
  = gen_rectangle 2 3.
Proof.
  apply (proj2 (proj2 (tr_homothety_compose (gen_rectangle 2 3) 4 4 1 1))).
  lra.
Defined.

(** ** The perimeter *)

Lemma sides_edge_list (poly : Polygon) : sides poly = edge_list poly.
Proof.
  destruct poly as [|a l]; [reflexivity|].
  rewrite edge_list_cyclic. reflexivity.
Qed.

Lemma fold_left_Rplus (l : list R) :
  forall acc, fold_left Rplus l acc = acc + Rsum l.
Proof.
  induction l as [|r l IH]; intros acc; cbn [fold_left Rsum fold_right].
  - lra.
  - rewrite IH. unfold Rsum. lra.
Qed.

Lemma polygon_perimeter_Rsum (poly : Polygon) :
  polygon_perimeter poly = Rsum (map side_length (edge_list poly)).
Proof.
  unfold polygon_perimeter. rewrite fold_left_Rplus, sides_edge_list. lra.
Qed.

Lemma hypot_nonneg (a b : R) : 0 <= hypot a b.
Proof. apply sqrt_pos. Qed.

Lemma hypot_eq (a b r : R) :
  0 <= r -> a * a + b * b = r * r -> hypot a b = r.
Proof.
  intros Hr E. unfold hypot. rewrite E. now apply sqrt_square.
Qed.

Lemma Rabs_square (x : R) : Rabs x * Rabs x = x * x.
Proof.
  unfold Rabs. destruct (Rcase_abs x); ring.
Qed.

Lemma hypot_scale (k a b : R) : hypot (k * a) (k * b) = Rabs k * hypot a b.
Proof.
  apply hypot_eq.
  - apply Rmult_le_pos; [apply Rabs_pos|apply hypot_nonneg].
  - unfold hypot.
    replace (Rabs k * sqrt (a * a + b * b) * (Rabs k * sqrt (a * a + b * b)))
      with (Rabs k * Rabs k * (sqrt (a * a + b * b) * sqrt (a * a + b * b)))
      by ring.
    rewrite Rabs_square, sqrt_sqrt by nra. ring.
Qed.

Lemma Rsum_nonneg (l : list R) : Forall (fun r => 0 <= r) l -> 0 <= Rsum l.
Proof.
  induction 1 as [|r l Hr _ IH]; cbn [Rsum fold_right].
  - lra.
  - unfold Rsum in IH. lra.
Qed.

Lemma Rsum_map_ext_scale {A : Type} (k : R) (f g : A -> R) (l : list A) :
  (forall e, f e = k * g e) -> Rsum (map f l) = k * Rsum (map g l).
Proof.
  intros H. induction l as [|e l IH]; cbn [map Rsum fold_right].
  - lra.
  - unfold Rsum in IH. rewrite IH, H. lra.
Qed.

Lemma side_length_nonneg (e : point * point) : 0 <= side_length e.
Proof. destruct e as [[x1 y1] [x2 y2]]. apply hypot_nonneg. Qed.

(** The perimeter of the image of a polygon under a vertex map that
    multiplies every length by [k]. *)
Lemma polygon_perimeter_map (T : point -> point) (k : R) (poly : Polygon) :
  (forall p q, side_length (T p, T q) = k * side_length (p, q)) ->
  polygon_perimeter (map T poly) = k * polygon_perimeter poly.
Proof.
  intros HT. rewrite !polygon_perimeter_Rsum, edge_list_map, map_map.
  apply Rsum_map_ext_scale. intros [p q]. apply HT.
Qed.

(** X5.  Over the reals, the perimeter is kept by a translation, a reflection (whatever
    the axis string) and a rotation, and a homothety of ratio [k]
    multiplies it by [abs k]. *)
Theorem polygon_perimeter_laws (poly : Polygon)
  (dx dy angle_deg cx cy k : R) (axis : string) :
  polygon_perimeter (tr_translate poly dx dy) = polygon_perimeter poly /\
  polygon_perimeter (tr_symmetry poly axis) = polygon_perimeter poly /\
  polygon_perimeter (tr_rotate poly angle_deg cx cy)
  = polygon_perimeter poly /\
  polygon_perimeter (tr_homothety poly k cx cy)
  = Rabs k * polygon_perimeter poly.
Proof.
  repeat split.
  - unfold tr_translate.
    rewrite (polygon_perimeter_map _ 1); [lra|].
    intros [x1 y1] [x2 y2]. unfold side_length.
    rewrite Rmult_1_l. f_equal; ring.
  - unfold tr_symmetry.
    destruct (String.eqb axis "x");
      (rewrite (polygon_perimeter_map _ 1); [lra|]);
      intros [x1 y1] [x2 y2]; unfold side_length, hypot;
      rewrite Rmult_1_l; f_equal; ring.
  - unfold tr_rotate.
    rewrite (polygon_perimeter_map _ 1); [lra|].
    intros [x1 y1] [x2 y2]. unfold side_length, hypot.
    rewrite Rmult_1_l. f_equal.
    pose proof (sin2_cos2_radians angle_deg) as H.
    set (s := sin (radians angle_deg)) in *.
    set (c := cos (radians angle_deg)) in *.
    transitivity (((x2 - x1) * (x2 - x1) + (y2 - y1) * (y2 - y1))
                  * (c * c + s * s)); [ring|].
    rewrite H. ring.
  - unfold tr_homothety.
    apply polygon_perimeter_map.
    intros [x1 y1] [x2 y2]. unfold side_length.
    rewrite <- hypot_scale. f_equal; ring.
Qed.

Lemma polygon_perimeter_nonneg (poly : Polygon) :
  0 <= polygon_perimeter poly.
Proof.
  rewrite polygon_perimeter_Rsum. apply Rsum_nonneg.
  apply Forall_forall. intros r Hr. apply in_map_iff in Hr.
  destruct Hr as [e [<- _]]. apply side_length_nonneg.
Qed.

(** X6.  The perimeter is never negative; it is 0 for a polygon of fewer
    than two vertices, and for two vertices it is twice their distance:
    the closing edge runs back over the only side. *)
Theorem polygon_perimeter_small (poly : Polygon) (p q : point) :
  0 <= polygon_perimeter poly /\
  polygon_perimeter [] = 0 /\
  polygon_perimeter [p] = 0 /\
  polygon_perimeter [p; q] = 2 * dist p q.
Proof.
  split; [|split; [|split]].
  - apply polygon_perimeter_nonneg.
  - unfold polygon_perimeter. cbn. reflexivity.
  - destruct p as [x y]. unfold polygon_perimeter, sides, side_length.
    cbn [skipn firstn app combine map fold_left].
    rewrite (hypot_eq _ _ 0); lra.
  - destruct p as [x1 y1], q as [x2 y2].
    unfold polygon_perimeter, sides, side_length, dist.
    cbn [skipn firstn app combine map fold_left fst snd].
    replace (hypot (x1 - x2) (y1 - y2)) with (hypot (x2 - x1) (y2 - y1)).
    + lra.
    + unfold hypot. f_equal. ring.
Qed.

(** ** What the generators build *)





(** ** Convexity *)

(** X9.  Over the reals, every polygon of exactly three vertices is convex, whatever their
    order and even when they are collinear or equal: its three cross
    products are one number, and its area is half the absolute value of
    that number. *)
Theorem is_convex_three (a b c : point) :
  is_convex [a; b; c] = true /\
  cross_at [a; b; c] 1 = cross_at [a; b; c] 0 /\
  cross_at [a; b; c] 2 = cross_at [a; b; c] 0 /\
  polygon_area [a; b; c] = Rabs (cross_at [a; b; c] 0) / 2.
Proof.
  assert (E1 : cross_at [a; b; c] 1 = cross_at [a; b; c] 0)
    by (destruct a, b, c; run_kernel; ring).
  assert (E2 : cross_at [a; b; c] 2 = cross_at [a; b; c] 0)
    by (destruct a, b, c; run_kernel; ring).
  split; [|split; [exact E1|split; [exact E2|]]].
  - unfold is_convex. cbn [length Nat.ltb Nat.leb seq map forallb].
    rewrite E1, E2. unfold Rgeb, Rleb.
    set (D := cross_at _ 0).
    destruct (Rle_dec 0 D), (Rle_dec D 0); cbn; try reflexivity; lra.
  - destruct a, b, c. run_kernel. f_equal. f_equal. ring.
Qed.

Lemma vertex_map (T : point -> point) (poly : Polygon) (i : nat) :
  (i < length poly)%nat -> vertex (map T poly) i = T (vertex poly i).
Proof.
  intros Hi. unfold vertex.
  rewrite (nth_indep _ origin (T origin)) by now rewrite length_map.
  apply map_nth.
Qed.

Lemma cross_at_affine (a b c d e f : R) (poly : Polygon) (i : nat) :
  (i < length poly)%nat ->
  cross_at (map (affine a b c d e f) poly) i
  = (a * d - b * c) * cross_at poly i.
Proof.
  intros Hi. unfold cross_at. rewrite length_map.
  assert (Hn : length poly <> 0%nat) by lia.
  rewrite !vertex_map
    by (try exact Hi; apply Nat.mod_upper_bound; exact Hn).
  destruct (vertex poly i) as [x0 y0].
  destruct (vertex poly ((i + 1) mod length poly)) as [x1 y1].
  destruct (vertex poly ((i + 2) mod length poly)) as [x2 y2].
  unfold affine. ring.
Qed.

Lemma forallb_map_seq_ext (f g : nat -> bool) (n : nat) :
  (forall i, (i < n)%nat -> f i = g i) ->
  forallb f (seq 0 n) = forallb g (seq 0 n).
Proof.
  intros H.
  assert (G : forall l : list nat,
             (forall i, In i l -> f i = g i) -> forallb f l = forallb g l).
  { induction l as [|i l IH]; intros Hl; [reflexivity|].
    cbn [forallb]. rewrite (Hl i) by now left.
    f_equal. apply IH. intros j Hj. apply Hl. now right. }
  apply G. intros i Hi. apply H. apply in_seq in Hi. lia.
Qed.

Lemma forallb_of_map {A B : Type} (f : B -> bool) (g : A -> B)
  (l : list A) :
  forallb f (map g l) = forallb (fun x => f (g x)) l.
Proof.
  induction l as [|x l IH]; [reflexivity|]. cbn [map forallb]. now rewrite IH.
Qed.

Lemma is_convex_affine (a b c d e f : R) (poly : Polygon) :
  a * d - b * c <> 0 ->
  is_convex (map (affine a b c d e f) poly) = is_convex poly.
Proof.
  intros Hdet. unfold is_convex. rewrite length_map.
  destruct (length poly <? 3)%nat; [reflexivity|].
  rewrite !forallb_of_map.
  set (D := a * d - b * c) in *.
  destruct (Rlt_dec 0 D) as [Hpos|Hneg].
  - f_equal; apply forallb_map_seq_ext; intros i Hi;
      rewrite cross_at_affine by exact Hi; fold D;
      unfold Rgeb, Rleb;
      destruct (Rle_dec _ _), (Rle_dec _ _); try reflexivity; nra.
  - rewrite orb_comm.
    f_equal; apply forallb_map_seq_ext; intros i Hi;
      rewrite cross_at_affine by exact Hi; fold D;
      unfold Rgeb, Rleb;
      destruct (Rle_dec _ _), (Rle_dec _ _); try reflexivity; nra.
Qed.

(** X10.  Over the reals, convexity is kept by a translation, a reflection, a rotation and
    a homothety of ratio other than 0.  The homothety of ratio 0 maps
    every vertex to the centre, and [is_convex] then accepts the polygon
    as soon as it has three vertices. *)
Theorem is_convex_laws (poly : Polygon) (dx dy angle_deg cx cy k : R)
  (axis : string) :
  is_convex (tr_translate poly dx dy) = is_convex poly /\
  is_convex (tr_symmetry poly axis) = is_convex poly /\
  is_convex (tr_rotate poly angle_deg cx cy) = is_convex poly /\
  (k <> 0 -> is_convex (tr_homothety poly k cx cy) = is_convex poly) /\
  is_convex (tr_homothety poly 0 cx cy) = (3 <=? length poly)%nat.
Proof.
  split; [|split; [|split; [|split]]].
  - rewrite tr_translate_affine. apply is_convex_affine. lra.
  - rewrite tr_symmetry_affine.
    destruct (String.eqb axis "x"); apply is_convex_affine; lra.
  - rewrite tr_rotate_affine. apply is_convex_affine.
    pose proof (sin2_cos2_radians angle_deg). lra.
  - intros Hk. rewrite tr_homothety_affine. apply is_convex_affine. nra.
  - rewrite tr_homothety_affine. unfold is_convex. rewrite length_map.
    rewrite Nat.ltb_antisym.
    destruct (3 <=? length poly)%nat; [|reflexivity]. cbn [negb].
    apply orb_true_iff. left. rewrite forallb_of_map.
    apply forallb_forall. intros i Hi. apply in_seq in Hi.
    rewrite cross_at_affine by lia.
    unfold Rgeb. apply Rleb_true_iff. lra.
Qed.

Lemma is_convex_laws_witness :
  is_convex (tr_homothety arrow (- 2) 1 1) = is_convex arrow.
Proof.
  apply (proj1 (proj2 (proj2 (proj2
           (is_convex_laws arrow 0 0 0 1 1 (- 2) "x"))))).
  lra.
Defined.

(** ** Points and polygons: [point_in_polygon] *)

Lemma Rleb_ext (a b c d : R) : (a <= b <-> c <= d) -> Rleb a b = Rleb c d.
Proof.
  intros H. unfold Rleb.
  destruct (Rle_dec a b), (Rle_dec c d); tauto.
Qed.

Lemma Rltb_ext (a b c d : R) : (a < b <-> c < d) -> Rltb a b = Rltb c d.
Proof.
  intros H. unfold Rltb.
  destruct (Rlt_dec a b), (Rlt_dec c d); tauto.
Qed.

Lemma py_min_shift (a b d : R) : py_min (a + d) (b + d) = py_min a b + d.
Proof.
  unfold py_min, Rltb.
  destruct (Rlt_dec (b + d) (a + d)), (Rlt_dec b a); lra.
Qed.

Lemma py_max_shift (a b d : R) : py_max (a + d) (b + d) = py_max a b + d.
Proof.
  unfold py_max, Rgtb, Rltb.
  destruct (Rlt_dec (a + d) (b + d)), (Rlt_dec a b); lra.
Qed.

Lemma tol_pos : 0 < tol.
Proof. unfold tol. lra. Qed.

Lemma edge_list_In (poly : Polygon) (e : point * point) :
  In e (edge_list poly) -> In (fst e) poly /\ In (snd e) poly.
Proof.
  unfold edge_list. intros H. apply in_map_iff in H.
  destruct H as [i [<- Hi]]. apply in_seq in Hi. cbn [fst snd].
  split; apply nth_In; [lia|].
  apply Nat.mod_upper_bound. lia.
Qed.

Lemma edge_list_starts (poly : Polygon) (v : point) :
  In v poly -> exists w, In (v, w) (edge_list poly).
Proof.
  intros Hv. destruct (In_nth _ _ origin Hv) as [i [Hi E]].
  exists (vertex poly ((i + 1) mod length poly)).
  unfold edge_list. apply in_map_iff. exists i.
  split; [unfold vertex at 1; now rewrite E|].
  apply in_seq. lia.
Qed.

Lemma vertex_inside (poly : Polygon) (v : point) :
  In v poly -> point_in_polygon poly v = true.
Proof.
  intros Hv. destruct (edge_list_starts poly v Hv) as [w Hw].
  destruct v as [x y], w as [x2 y2].
  rewrite point_in_polygon_char. apply orb_true_iff. left.
  apply existsb_exists. exists ((x, y), (x2, y2)). split; [exact Hw|].
  unfold on_edgeb, on_edge.
  rewrite !py_min_Rmin, !py_max_Rmax.
  replace ((x2 - x) * (y - y) - (y2 - y) * (x - x)) with 0 by ring.
  rewrite Rabs_R0.
  rewrite !andb_true_iff, !Rleb_true_iff, Rltb_true_iff.
  pose proof tol_pos.
  pose proof (Rmin_l x x2). pose proof (Rmax_l x x2).
  pose proof (Rmin_l y y2). pose proof (Rmax_l y y2). tauto.
Qed.

(** X11.  Over the reals, every vertex of a polygon is inside it: a vertex is on the edge
    that starts at it, with cross term 0. *)
Theorem vertex_in_polygon (poly : Polygon) (v : point) :
  In v poly -> point_in_polygon poly v = true.
Proof. apply vertex_inside. Qed.

Lemma vertex_in_polygon_witness :
  point_in_polygon arrow (1, 2) = true.
Proof.
  apply (vertex_in_polygon arrow (1, 2)).
  unfold arrow. cbn [In]. tauto.
Defined.

Lemma on_edge_shift (x y x1 y1 x2 y2 dx dy : R) :
  on_edge (x + dx) (y + dy) (x1 + dx) (y1 + dy) (x2 + dx) (y2 + dy)
  = on_edge x y x1 y1 x2 y2.
Proof.
  unfold on_edge. rewrite !py_min_shift, !py_max_shift.
  replace ((x2 + dx - (x1 + dx)) * (y + dy - (y1 + dy))
           - (y2 + dy - (y1 + dy)) * (x + dx - (x1 + dx)))
    with ((x2 - x1) * (y - y1) - (y2 - y1) * (x - x1)) by ring.
  f_equal. f_equal; f_equal; apply Rleb_ext; lra.
Qed.

Lemma crosses_shift (x y x1 y1 x2 y2 dx dy : R) :
  crosses (x + dx) (y + dy) (x1 + dx) (y1 + dy) (x2 + dx) (y2 + dy)
  = crosses x y x1 y1 x2 y2.
Proof.
  unfold crosses, straddles, Rgtb.
  replace (x2 + dx - (x1 + dx)) with (x2 - x1) by ring.
  replace (y + dy - (y1 + dy)) with (y - y1) by ring.
  replace (y2 + dy - (y1 + dy)) with (y2 - y1) by ring.
  f_equal; [f_equal; f_equal|]; apply Rltb_ext; lra.
Qed.

Lemma existsb_of_map {A B : Type} (f : B -> bool) (g : A -> bool)
  (h : A -> B) (l : list A) :
  (forall a, f (h a) = g a) -> existsb f (map h l) = existsb g l.
Proof.
  intros H. induction l as [|a l IH]; [reflexivity|].
  cbn [map existsb]. now rewrite H, IH.
Qed.

Lemma parityb_of_map {A B : Type} (f : B -> bool) (g : A -> bool)
  (h : A -> B) (l : list A) :
  (forall a, f (h a) = g a) -> parityb f (map h l) = parityb g l.
Proof.
  intros H. induction l as [|a l IH]; [reflexivity|].
  cbn [map parityb fold_right]. fold (parityb f (map h l)).
  fold (parityb g l). now rewrite H, IH.
Qed.

(** X12.  Moving the polygon and the point by the same offsets does not
    change the answer of [point_in_polygon]. *)
Theorem point_in_polygon_translate (poly : Polygon) (x y dx dy : R) :
  point_in_polygon (tr_translate poly dx dy) (x + dx, y + dy)
  = point_in_polygon poly (x, y).
Proof.
  rewrite !point_in_polygon_char. unfold tr_translate.
  rewrite edge_list_map. f_equal.
  - apply existsb_of_map. intros [[x1 y1] [x2 y2]].
    cbn [fst snd]. unfold on_edgeb. apply on_edge_shift.
  - apply parityb_of_map. intros [[x1 y1] [x2 y2]].
    cbn [fst snd]. unfold crossesb. apply crosses_shift.
Qed.

Lemma existsb_none {A : Type} (f : A -> bool) (l : list A) :
  (forall e, In e l -> f e = false) -> existsb f l = false.
Proof.
  intros H. induction l as [|e l IH]; [reflexivity|].
  cbn [existsb]. rewrite (H e) by now left.
  apply IH. intros e' He'. apply H. now right.
Qed.

Lemma parityb_ext_in {A : Type} (f g : A -> bool) (l : list A) :
  (forall e, In e l -> f e = g e) -> parityb f l = parityb g l.
Proof.
  intros H. induction l as [|e l IH]; [reflexivity|].
  cbn [parityb fold_right]. fold (parityb f l). fold (parityb g l).
  rewrite (H e) by now left.
  f_equal. apply IH. intros e' He'. apply H. now right.
Qed.

Lemma parityb_none {A : Type} (f : A -> bool) (l : list A) :
  (forall e, In e l -> f e = false) -> parityb f l = false.
Proof.
  intros H. rewrite (parityb_ext_in f (fun _ => false)) by exact H.
  clear H. induction l as [|e l IH]; [reflexivity|]. exact IH.
Qed.

(** Around a closed chain the number of changes of a mark is even. *)
Lemma parityb_chain (g : point -> bool) (l : Polygon) :
  forall a b,
    parityb (fun e => xorb (g (fst e)) (g (snd e)))
            (combine (a :: l) (l ++ [b]))
    = xorb (g a) (g b).
Proof.
  induction l as [|c l IH]; intros a b.
  - cbn. now rewrite xorb_false_r.
  - change (combine (a :: c :: l) ((c :: l) ++ [b]))
      with ((a, c) :: combine (c :: l) (l ++ [b])).
    cbn [parityb fold_right fst snd].
    fold (parityb (fun e => xorb (g (fst e)) (g (snd e)))
            (combine (c :: l) (l ++ [b]))).
    rewrite IH. now destruct (g a), (g b), (g c).
Qed.

Lemma parityb_cycle (g : point -> bool) (poly : Polygon) :
  parityb (fun e => xorb (g (fst e)) (g (snd e))) (edge_list poly) = false.
Proof.
  destruct poly as [|a l]; [reflexivity|].
  rewrite edge_list_cyclic, parityb_chain. apply xorb_nilpotent.
Qed.

(** Where the line through the point meets an edge that straddles it,
    relative to the abscissas of the two ends. *)
Lemma intercept_between (x y x1 y1 x2 y2 : R) :
  straddles y y1 y2 = true ->
  (x < x1 -> x < x2 -> x < (x2 - x1) * (y - y1) / (y2 - y1) + x1) /\
  (x1 < x -> x2 < x -> (x2 - x1) * (y - y1) / (y2 - y1) + x1 < x).
Proof.
  intros Hs. pose proof (straddles_neq _ _ _ Hs) as HD.
  apply straddles_iff in Hs.
  set (q := (x2 - x1) * (y - y1) / (y2 - y1)).
  assert (Hq : q * (y2 - y1) = (x2 - x1) * (y - y1))
    by (unfold q; field; exact HD).
  assert (E : (q + x1 - x) * (y2 - y1)
              = (x2 - x) * (y - y1) + (x1 - x) * (y2 - y))
    by (replace ((q + x1 - x) * (y2 - y1))
          with (q * (y2 - y1) + (x1 - x) * (y2 - y1)) by ring;
        rewrite Hq; ring).
  split; intros H1 H2.
  - destruct Hs as [[Ha Hb]|[Ha Hb]].
    + assert (M1 : (x2 - x) * (y - y1) < 0) by nra.
      assert (M2 : (x1 - x) * (y2 - y) <= 0) by nra.
      destruct (Rle_dec (q + x1 - x) 0); [nra|lra].
    + assert (M1 : 0 <= (x2 - x) * (y - y1)) by nra.
      assert (M2 : 0 < (x1 - x) * (y2 - y)) by nra.
      destruct (Rle_dec (q + x1 - x) 0); [nra|lra].
  - destruct Hs as [[Ha Hb]|[Ha Hb]].
    + assert (M1 : 0 < (x2 - x) * (y - y1)) by nra.
      assert (M2 : 0 <= (x1 - x) * (y2 - y)) by nra.
      destruct (Rle_dec 0 (q + x1 - x)); [nra|lra].
    + assert (M1 : (x2 - x) * (y - y1) <= 0) by nra.
      assert (M2 : (x1 - x) * (y2 - y) < 0) by nra.
      destruct (Rle_dec 0 (q + x1 - x)); [nra|lra].
Qed.

Lemma straddles_xorb (y y1 y2 : R) :
  straddles y y1 y2 = xorb (Rgtb y1 y) (Rgtb y2 y).
Proof.
  unfold straddles. now destruct (Rgtb y1 y), (Rgtb y2 y).
Qed.

(** X13.  Over the reals, a point strictly outside the bounding box of the vertices of a
    polygon, above, below, to the right or to the left of all of them, is
    not inside it. *)
Theorem point_outside_box (poly : Polygon) (x y : R) :
  (forall v, In v poly -> snd v < y) \/
  (forall v, In v poly -> y < snd v) \/
  (forall v, In v poly -> fst v < x) \/
  (forall v, In v poly -> x < fst v) ->
  point_in_polygon poly (x, y) = false.
Proof.
  intros Hbox. rewrite point_in_polygon_char. apply orb_false_iff.
  assert (Ends : forall e, In e (edge_list poly) ->
                   forall P : point -> Prop,
                     (forall v, In v poly -> P v) -> P (fst e) /\ P (snd e)).
  { intros e He P HP. destruct (edge_list_In poly e He). split; now apply HP. }
  assert (NoEdge : forall e, In e (edge_list poly) -> on_edgeb x y e = false).
  { intros [[x1 y1] [x2 y2]] He. unfold on_edgeb, on_edge.
    rewrite !py_min_Rmin, !py_max_Rmax.
    apply not_true_is_false.
    rewrite !andb_true_iff, !Rleb_true_iff. intros [[[A B] [C D]] _].
    revert A B C D. unfold Rmin, Rmax.
    destruct (Rle_dec x1 x2), (Rle_dec y1 y2); intros A B C D;
      destruct Hbox as [H|[H|[H|H]]];
      destruct (Ends _ He _ H) as [H1 H2]; cbn [fst snd] in H1, H2; lra. }
  split; [now apply existsb_none|].
  destruct Hbox as [H|[H|[H|H]]].
  - apply parityb_none. intros [[x1 y1] [x2 y2]] He.
    destruct (Ends _ He _ H) as [H1 H2]. cbn [fst snd] in H1, H2.
    unfold crossesb, crosses, straddles, Rgtb.
    rewrite (proj2 (Rltb_false_iff y y1)), (proj2 (Rltb_false_iff y y2))
      by lra.
    reflexivity.
  - apply parityb_none. intros [[x1 y1] [x2 y2]] He.
    destruct (Ends _ He _ H) as [H1 H2]. cbn [fst snd] in H1, H2.
    unfold crossesb, crosses, straddles, Rgtb.
    rewrite (proj2 (Rltb_true_iff y y1)), (proj2 (Rltb_true_iff y y2))
      by lra.
    reflexivity.
  - apply parityb_none. intros [[x1 y1] [x2 y2]] He.
    destruct (Ends _ He _ H) as [H1 H2]. cbn [fst snd] in H1, H2.
    unfold crossesb, crosses.
    destruct (straddles y y1 y2) eqn:Hs; [|reflexivity].
    cbn [andb]. apply Rltb_false_iff.
    destruct (intercept_between x y x1 y1 x2 y2 Hs) as [_ Hr].
    specialize (Hr H1 H2). lra.
  - rewrite (parityb_ext_in (crossesb x y)
               (fun e : point * point =>
                  xorb (Rgtb (snd (fst e)) y) (Rgtb (snd (snd e)) y))).
    + apply (parityb_cycle (fun p => Rgtb (snd p) y)).
    + intros [[x1 y1] [x2 y2]] He.
      destruct (Ends _ He _ H) as [H1 H2]. cbn [fst snd] in H1, H2 |- *.
      unfold crossesb, crosses. rewrite <- straddles_xorb.
      destruct (straddles y y1 y2) eqn:Hs; [|reflexivity].
      cbn [andb]. apply Rltb_true_iff.
      destruct (intercept_between x y x1 y1 x2 y2 Hs) as [Hl _].
      now apply Hl.
Qed.

Lemma point_outside_box_witness :
  point_in_polygon (gen_rectangle 2 2) (- 1, 1) = false.
Proof.
  apply (point_outside_box (gen_rectangle 2 2) (- 1) 1).
  right. right. right. unfold gen_rectangle. cbn [In fst].
  intros v [<-|[<-|[<-|[<-|[]]]]]; cbn [fst]; lra.
Defined.

(** ** Filters *)




(** X15.  [flt_square] keeps the polygons of area below the bound, in
    their order.  No polygon passes a bound that is not positive;
    a polygon that passes a bound passes every larger one; and the filter
    commutes with [flt_convex_polygon]. *)
Theorem flt_square_rule (polygons : list Polygon) (m1 m2 : R) :
  (forall m, m <= 0 -> flt_square polygons m = []) /\
  (m1 <= m2 -> flt_square (flt_square polygons m2) m1
               = flt_square polygons m1) /\
  flt_convex_polygon (flt_square polygons m1)
  = flt_square (flt_convex_polygon polygons) m1.
Proof.
  unfold flt_square, flt_convex_polygon. split; [|split].
  - intros m Hm. induction polygons as [|p l IH]; [reflexivity|].
    cbn [filter]. rewrite IH.
    rewrite (proj2 (Rltb_false_iff (polygon_area p) m)); [reflexivity|].
    pose proof (polygon_area_nonneg p). lra.
  - intros Hle. induction polygons as [|p l IH]; [reflexivity|].
    cbn [filter].
    destruct (Rltb (polygon_area p) m2) eqn:E2.
    + cbn [filter]. now rewrite IH.
    + rewrite IH.
      rewrite (proj2 (Rltb_false_iff (polygon_area p) m1)); [reflexivity|].
      apply Rltb_false_iff in E2. lra.
  - induction polygons as [|p l IH]; [reflexivity|].
    cbn [filter].
    destruct (Rltb (polygon_area p) m1) eqn:E, (is_convex p) eqn:C;
      cbn [filter]; rewrite ?E, ?C, IH; reflexivity.
Qed.

Lemma flt_square_rule_witness :
  flt_square [gen_rectangle 1 1; arrow] (- 1) = [] /\
  flt_square (flt_square [gen_rectangle 1 1; arrow] 5) 2
  = flt_square [gen_rectangle 1 1; arrow] 2.
Proof.
  destruct (flt_square_rule [gen_rectangle 1 1; arrow] 2 5) as [H0 [Hm _]].
  split; [apply H0; lra|apply Hm; lra].
Defined.

(** X16.  [flt_short_side] passes nothing when the bound is not positive,
    and never passes a polygon without vertices; a polygon of one vertex
    passes every positive bound, its only side having length 0. *)
Theorem flt_short_side_rule (polygons : list Polygon) (m : R) (v : point) :
  (m <= 0 -> flt_short_side polygons m = []) /\
  flt_short_side [[]] m = [] /\
  (0 < m -> flt_short_side [[v]] m = [[v]]).
Proof.
  unfold flt_short_side. split; [|split].
  - intros Hm. induction polygons as [|p l IH]; [reflexivity|].
    cbn [filter]. rewrite IH.
    rewrite existsb_none; [reflexivity|].
    intros e _. apply Rltb_false_iff.
    pose proof (side_length_nonneg e). lra.
  - reflexivity.
  - intros Hm. destruct v as [x y]. unfold sides, side_length.
    cbn [skipn firstn app combine existsb filter].
    rewrite (hypot_eq (x - x) (y - y) 0) by lra.
    now rewrite (proj2 (Rltb_true_iff 0 m) Hm).
Qed.

Lemma flt_short_side_rule_witness :
  flt_short_side [gen_rectangle 1 1] 0 = [] /\
  flt_short_side [[(3, 4)]] 1 = [[(3, 4)]].
Proof.
  destruct (flt_short_side_rule [gen_rectangle 1 1] 0 (3, 4)) as [H0 _].
  destruct (flt_short_side_rule [] 1 (3, 4)) as [_ [_ H1]].
  split; [apply H0; lra|apply H1; lra].
Defined.

Lemma isclose_refl (a : R) : isclose a a = true.
Proof.
  unfold isclose. apply Rleb_true_iff. rewrite py_max_Rmax.
  replace (a - a) with 0 by ring. rewrite Rabs_R0. apply Rmax_r.
Qed.

Lemma isclose_zero (a : R) : isclose a 0 = true <-> a = 0.
Proof.
  unfold isclose. rewrite Rleb_true_iff, !py_max_Rmax.
  replace (a - 0) with a by ring. rewrite Rabs_R0.
  pose proof (Rabs_pos a) as Ha.
  rewrite (Rmax_left (Rabs a) 0) by exact Ha.
  rewrite (Rmax_left (1e-9 * Rabs a) 0) by lra.
  split.
  - intros H. destruct (Req_dec a 0) as [E|E]; [exact E|].
    pose proof (Rabs_pos_lt a E). lra.
  - intros ->. rewrite Rabs_R0. lra.
Qed.

(** X17.  [flt_angle_point] passes every polygon of the sequence that has
    the point among its vertices.  At the origin it passes no other
    polygon: [math.isclose] has no absolute tolerance by default, so only
    a vertex that is exactly (0, 0) is close to it. *)
Theorem flt_angle_point_rule (polygons : list Polygon) (p : Polygon)
  (pt : point) :
  (In p polygons -> In pt p -> In p (flt_angle_point polygons pt)) /\
  (In p (flt_angle_point polygons (0, 0)) <->
   In p polygons /\ In (0, 0) p).
Proof.
  unfold flt_angle_point. split.
  - intros Hp Hpt. apply filter_In. split; [exact Hp|].
    apply existsb_exists. exists pt. split; [exact Hpt|].
    destruct pt as [x y]. cbn [fst snd]. now rewrite !isclose_refl.
  - rewrite filter_In, existsb_exists. cbn [fst snd]. split.
    + intros [Hp [[x y] [Hv Hc]]]. split; [exact Hp|].
      apply andb_true_iff in Hc. destruct Hc as [Hx Hy].
      apply isclose_zero in Hx, Hy. now subst.
    + intros [Hp Hv]. split; [exact Hp|]. exists (0, 0).
      split; [exact Hv|]. now rewrite !isclose_refl.
Qed.

Lemma flt_angle_point_rule_witness :
  In (gen_rectangle 2 3) (flt_angle_point [gen_rectangle 2 3] (2, 3)).
Proof.
  apply (proj1 (flt_angle_point_rule [gen_rectangle 2 3]
                  (gen_rectangle 2 3) (2, 3))).
  - now left.
  - unfold gen_rectangle. cbn [In]. tauto.
Defined.

(** ** Aggregates *)

Lemma agr_area_Rsum (polygons : list Polygon) :
  agr_area polygons = Rsum (map polygon_area polygons).
Proof.
  unfold agr_area. rewrite <- (Rplus_0_l (Rsum _)). generalize 0.
  induction polygons as [|p l IH]; intros acc;
    cbn [fold_left map Rsum fold_right]; [lra|].
  rewrite IH. unfold Rsum. lra.
Qed.

Lemma agr_perimeter_Rsum (polygons : list Polygon) :
  agr_perimeter polygons = Rsum (map polygon_perimeter polygons).
Proof.
  unfold agr_perimeter. rewrite <- (Rplus_0_l (Rsum _)). generalize 0.
  induction polygons as [|p l IH]; intros acc;
    cbn [fold_left map Rsum fold_right]; [lra|].
  rewrite IH. unfold Rsum. lra.
Qed.

Lemma Rsum_app (l1 l2 : list R) : Rsum (l1 ++ l2) = Rsum l1 + Rsum l2.
Proof.
  unfold Rsum. induction l1 as [|r l1 IH]; cbn [app fold_right]; [lra|].
  rewrite IH. lra.
Qed.

Lemma Rsum_Permutation (l1 l2 : list R) :
  Permutation l1 l2 -> Rsum l1 = Rsum l2.
Proof.
  unfold Rsum.
  induction 1 as [|r l l' _ IH|r r' l|l l' l'' _ IH1 _ IH2];
    cbn [fold_right].
  - reflexivity.
  - now rewrite IH.
  - lra.
  - now rewrite IH1.
Qed.

(** X18.  The total area and the total perimeter are not negative, they
    add up over a sequence made of two parts, and they do not depend on
    the order of the polygons. *)
Theorem agr_sums (l1 l2 : list Polygon) :
  0 <= agr_area l1 /\ 0 <= agr_perimeter l1 /\
  agr_area (l1 ++ l2) = agr_area l1 + agr_area l2 /\
  agr_perimeter (l1 ++ l2) = agr_perimeter l1 + agr_perimeter l2 /\
  (Permutation l1 l2 ->
   agr_area l1 = agr_area l2 /\ agr_perimeter l1 = agr_perimeter l2).
Proof.
  rewrite !agr_area_Rsum, !agr_perimeter_Rsum, !map_app, !Rsum_app.
  split; [|split; [|split; [|split]]]; try reflexivity.
  - apply Rsum_nonneg, Forall_forall. intros r Hr.
    apply in_map_iff in Hr. destruct Hr as [p [<- _]].
    apply polygon_area_nonneg.
  - apply Rsum_nonneg, Forall_forall. intros r Hr.
    apply in_map_iff in Hr. destruct Hr as [p [<- _]].
    apply polygon_perimeter_nonneg.
  - intros HP. split; apply Rsum_Permutation; now apply Permutation_map.
Qed.

Lemma agr_sums_witness :
  agr_area [gen_rectangle 1 2; arrow] = agr_area [arrow; gen_rectangle 1 2].
Proof.
  apply (proj2 (proj2 (proj2 (proj2
           (agr_sums [gen_rectangle 1 2; arrow]
                     [arrow; gen_rectangle 1 2]))))).
  apply perm_swap.
Defined.

Lemma agr_min_area_snoc (l : list Polygon) (p : Polygon) :
  agr_min_area (l ++ [p]) = xmin (agr_min_area l) (Fin (polygon_area p)).
Proof. unfold agr_min_area. now rewrite fold_left_app. Qed.

Lemma agr_min_area_inv (polygons : list Polygon) :
  match agr_min_area polygons with
  | PInf => polygons = []
  | Fin a =>
      (exists p, In p polygons /\ polygon_area p = a) /\
      (forall q, In q polygons -> a <= polygon_area q)
  end.
Proof.
  induction polygons as [|p l IH] using rev_ind; [reflexivity|].
  rewrite agr_min_area_snoc.
  destruct (agr_min_area l) as [a|].
  - destruct IH as [[p0 [Hp0 Ea]] Hmin]. unfold xmin, xltb.
    destruct (Rltb (polygon_area p) a) eqn:E.
    + apply Rltb_true_iff in E. split.
      * exists p. split; [apply in_or_app; right; now left|reflexivity].
      * intros q Hq. apply in_app_or in Hq. destruct Hq as [Hq|[<-|[]]].
        -- specialize (Hmin q Hq). lra.
        -- lra.
    + apply Rltb_false_iff in E. split.
      * exists p0. split; [apply in_or_app; now left|exact Ea].
      * intros q Hq. apply in_app_or in Hq. destruct Hq as [Hq|[<-|[]]].
        -- now apply Hmin.
        -- exact E.
  - subst l. cbn [xmin xltb app]. split.
    + exists p. split; [now left|reflexivity].
    + intros q [<-|[]]. lra.
Qed.

(** X19.  Over the reals, where every area is finite, [agr_min_area]
    returns [inf] only for an empty sequence;
    otherwise it returns the area of one of the polygons, and no polygon
    of the sequence has a smaller area. *)
Theorem agr_min_area_rule (polygons : list Polygon) (a : R) :
  (agr_min_area polygons = PInf <-> polygons = []) /\
  (agr_min_area polygons = Fin a ->
   (exists p, In p polygons /\ polygon_area p = a) /\
   (forall q, In q polygons -> a <= polygon_area q)).
Proof.
  pose proof (agr_min_area_inv polygons) as H. split.
  - split.
    + intros E. now rewrite E in H.
    + intros ->. reflexivity.
  - intros E. now rewrite E in H.
Qed.

Lemma agr_min_area_rule_witness :
  (exists p, In p [gen_rectangle 1 (3 / 2); gen_rectangle 10 10] /\
             polygon_area p = polygon_area (gen_rectangle 1 (3 / 2))) /\
  (forall q, In q [gen_rectangle 1 (3 / 2); gen_rectangle 10 10] ->
             polygon_area (gen_rectangle 1 (3 / 2)) <= polygon_area q).
Proof.
  apply (proj2 (agr_min_area_rule
                  [gen_rectangle 1 (3 / 2); gen_rectangle 10 10]
                  (polygon_area (gen_rectangle 1 (3 / 2))))).
  exact (proj1 (proj2 agr_area_two_rectangles)).
Defined.

Lemma py_max_cases (a b : R) :
  (py_max a b = a \/ py_max a b = b) /\ a <= py_max a b /\ b <= py_max a b.
Proof.
  unfold py_max, Rgtb, Rltb. destruct (Rlt_dec a b); lra.
Qed.

Lemma fold_py_max_spec (rest : list R) :
  forall a,
    In (fold_left py_max rest a) (a :: rest) /\
    (forall r, In r (a :: rest) -> r <= fold_left py_max rest a).
Proof.
  induction rest as [|b rest IH]; intros a; cbn [fold_left].
  - split; [now left|]. intros r [<-|[]]. lra.
  - destruct (IH (py_max a b)) as [Hin Hmax].
    destruct (py_max_cases a b) as [Hc [Ha Hb]]. split.
    + destruct Hin as [E|Hin]; [|right; now right].
      destruct Hc as [Hc|Hc]; [left|right; left];
        (transitivity (py_max a b); [symmetry; exact Hc|exact E]).
    + intros r [<-|[<-|Hr]].
      * pose proof (Hmax _ (or_introl eq_refl)). lra.
      * pose proof (Hmax _ (or_introl eq_refl)). lra.
      * apply Hmax. now right.
Qed.

Lemma max_list_spec (l : list R) :
  match max_list l with
  | None => l = []
  | Some m => In m l /\ forall r, In r l -> r <= m
  end.
Proof.
  destruct l as [|a rest]; [reflexivity|]. apply fold_py_max_spec.
Qed.

Lemma sides_nil (p : Polygon) : sides p = [] <-> p = [].
Proof.
  split; [|now intros ->].
  destruct p as [|a l]; [reflexivity|].
  rewrite sides_edge_list, edge_list_cyclic.
  destruct l; discriminate.
Qed.

Lemma agr_max_side_snoc (l : list Polygon) (p : Polygon) :
  agr_max_side (l ++ [p]) =
  match agr_max_side l with
  | None => None
  | Some max_len =>
      match max_list (map side_length (sides p)) with
      | Some m => Some (py_max max_len m)
      | None => None
      end
  end.
Proof. unfold agr_max_side. now rewrite fold_left_app. Qed.

Lemma agr_max_side_inv (polygons : list Polygon) :
  match agr_max_side polygons with
  | None => In [] polygons
  | Some m =>
      ~ In [] polygons /\ 0 <= m /\
      (forall p e, In p polygons -> In e (sides p) -> side_length e <= m) /\
      (polygons = [] \/
       exists p e, In p polygons /\ In e (sides p) /\ side_length e = m)
  end.
Proof.
  induction polygons as [|p l IH] using rev_ind.
  - cbn. repeat split; try lra; try tauto; intros p e [].
  - rewrite agr_max_side_snoc.
    destruct (agr_max_side l) as [m0|] eqn:E0; [|apply in_or_app; now left].
    destruct IH as [Hne [Hpos [Hmax Hatt]]].
    pose proof (max_list_spec (map side_length (sides p))) as Hm.
    destruct (max_list (map side_length (sides p))) as [m|] eqn:Em.
    + destruct Hm as [Hin Hle]. apply in_map_iff in Hin.
      destruct Hin as [e0 [Ee0 He0]].
      destruct (py_max_cases m0 m) as [Hc [H0 H1]].
      split; [|split; [lra|split]].
      * intros Hin. apply in_app_or in Hin.
        destruct Hin as [Hin|[E|[]]]; [tauto|].
        subst p. discriminate Em.
      * intros q e Hq He. apply in_app_or in Hq.
        destruct Hq as [Hq|[<-|[]]].
        -- specialize (Hmax q e Hq He). lra.
        -- assert (side_length e <= m)
             by (apply Hle, in_map_iff; now exists e).
           lra.
      * right. destruct Hc as [Hc|Hc]; rewrite Hc.
        -- destruct Hatt as [->|[q [e [Hq [He Ee]]]]].
           ++ exists p, e0. cbn [app]. split; [now left|].
              split; [exact He0|].
              pose proof (side_length_nonneg e0).
              assert (m0 = 0) by (cbn in E0; now injection E0).
              lra.
           ++ exists q, e. split; [apply in_or_app; now left|now split].
        -- exists p, e0. split; [apply in_or_app; right; now left|now split].
    + apply map_eq_nil in Hm. apply sides_nil in Hm. subst p.
      apply in_or_app. right. now left.
Qed.

(** X20.  [agr_max_side] raises [ValueError] exactly when a polygon of
    the sequence has no vertices.  Otherwise its result is not negative,
    no side of any polygon is longer, and, when the sequence is not
    empty, it is the length of one of the sides. *)
Theorem agr_max_side_rule (polygons : list Polygon) (m : R) :
  (agr_max_side polygons = None <-> In [] polygons) /\
  (agr_max_side polygons = Some m ->
   0 <= m /\
   (forall p e, In p polygons -> In e (sides p) -> side_length e <= m) /\
   (polygons <> [] ->
    exists p e, In p polygons /\ In e (sides p) /\ side_length e = m)).
Proof.
  pose proof (agr_max_side_inv polygons) as H. split.
  - split.
    + intros E. now rewrite E in H.
    + intros Hin. destruct (agr_max_side polygons); [|reflexivity].
      now destruct H.
  - intros E. rewrite E in H. destruct H as [_ [Hpos [Hmax Hatt]]].
    split; [exact Hpos|]. split; [exact Hmax|].
    intros Hne. now destruct Hatt.
Qed.

Lemma agr_max_side_3_4 : agr_max_side [gen_rectangle 3 4] = Some 4.
Proof.
  unfold agr_max_side, gen_rectangle, sides, side_length.
  cbn [fold_left skipn firstn app combine map max_list].
  rewrite (hypot_eq (0 - 0) (4 - 0) 4), (hypot_eq (3 - 0) (4 - 4) 3),
          (hypot_eq (3 - 3) (0 - 4) 4), (hypot_eq (0 - 3) (0 - 0) 3)
    by lra.
  unfold py_max, Rgtb. repeat rcompare. reflexivity.
Qed.

Lemma agr_max_side_rule_witness :
  agr_max_side [gen_rectangle 1 1; []] = None /\
  (0 <= 4 /\
   (forall p e, In p [gen_rectangle 3 4] -> In e (sides p) ->
                side_length e <= 4) /\
   ([gen_rectangle 3 4] <> [] ->
    exists p e, In p [gen_rectangle 3 4] /\ In e (sides p) /\
                side_length e = 4)).
Proof.
  split.
  - apply (proj1 (agr_max_side_rule [gen_rectangle 1 1; []] 0)).
    right. now left.
  - apply (proj2 (agr_max_side_rule [gen_rectangle 3 4] 4)).
    exact agr_max_side_3_4.
Defined.









(** ** The order of the vertices *)

Lemma combine_app_eq {A B : Type} (l1 l2 : list A) (k1 k2 : list B) :
  length l1 = length k1 ->
  combine (l1 ++ l2) (k1 ++ k2) = combine l1 k1 ++ combine l2 k2.
Proof.
  revert k1. induction l1 as [|a l1 IH]; intros [|b k1] H;
    try discriminate; [reflexivity|].
  cbn [app combine]. f_equal. apply IH. now injection H.
Qed.

Lemma combine_rev_eq {A B : Type} (l : list A) (k : list B) :
  length l = length k -> combine (rev l) (rev k) = rev (combine l k).
Proof.
  revert k. induction l as [|a l IH]; intros [|b k] H;
    try discriminate; [reflexivity|].
  cbn [rev combine]. rewrite combine_app_eq.
  - rewrite IH by now injection H. reflexivity.
  - rewrite !length_rev. now injection H.
Qed.

Lemma combine_swap (l k : Polygon) :
  combine k l = map swap_edge (combine l k).
Proof.
  revert k. induction l as [|a l IH]; intros [|b k]; try reflexivity.
  cbn [combine map]. now rewrite IH.
Qed.

Lemma existsb_Permutation {A : Type} (f : A -> bool) (l l' : list A) :
  Permutation l l' -> existsb f l = existsb f l'.
Proof.
  induction 1 as [|e l l' _ IH|e e' l|l l' l'' _ IH1 _ IH2];
    cbn [existsb].
  - reflexivity.
  - now rewrite IH.
  - now destruct (f e), (f e').
  - now rewrite IH1.
Qed.

Lemma parityb_Permutation {A : Type} (f : A -> bool) (l l' : list A) :
  Permutation l l' -> parityb f l = parityb f l'.
Proof.
  unfold parityb.
  induction 1 as [|e l l' _ IH|e e' l|l l' l'' _ IH1 _ IH2];
    cbn [fold_right].
  - reflexivity.
  - now rewrite IH.
  - now destruct (f e), (f e').
  - now rewrite IH1.
Qed.

(** Starting at the next vertex, or running the other way, visits the
    same edges. *)
Lemma edge_list_shift (a : point) (l : Polygon) :
  Permutation (edge_list (a :: l)) (edge_list (l ++ [a])).
Proof.
  destruct l as [|b l]; [apply Permutation_refl|].
  rewrite edge_list_cyclic.
  change ((b :: l) ++ [a]) with (b :: (l ++ [a])) at 2.
  rewrite edge_list_cyclic.
  change (combine (a :: b :: l) ((b :: l) ++ [a]))
    with ((a, b) :: combine (b :: l) (l ++ [a])).
  change (b :: l ++ [a]) with ((b :: l) ++ [a]).
  rewrite combine_app_eq by (rewrite length_app; cbn; lia).
  apply Permutation_cons_append.
Qed.

Lemma edge_list_rev (poly : Polygon) :
  Permutation (edge_list (rev poly)) (map swap_edge (edge_list poly)).
Proof.
  destruct poly as [|a l]; [apply Permutation_refl|].
  cbn [rev]. eapply Permutation_trans.
  { apply Permutation_sym, edge_list_shift. }
  rewrite !edge_list_cyclic.
  replace (a :: rev l) with (rev (l ++ [a])) by apply rev_unit.
  change (rev l ++ [a]) with (rev (a :: l)).
  rewrite combine_rev_eq by (rewrite length_app; cbn; lia).
  rewrite (combine_swap (a :: l) (l ++ [a])).
  apply Permutation_sym, Permutation_rev.
Qed.

Lemma shoelace_term_swap (e : point * point) :
  shoelace_term (swap_edge e) = - 1 * shoelace_term e.
Proof. destruct e as [[x1 y1] [x2 y2]]. cbn. ring. Qed.

Lemma side_length_swap (e : point * point) :
  side_length (swap_edge e) = 1 * side_length e.
Proof.
  destruct e as [[x1 y1] [x2 y2]]. cbn [swap_edge fst snd side_length].
  unfold hypot. rewrite Rmult_1_l. f_equal. ring.
Qed.

Lemma on_edgeb_swap (x y : R) (e : point * point) :
  on_edgeb x y (swap_edge e) = on_edgeb x y e.
Proof.
  destruct e as [[x1 y1] [x2 y2]].
  cbn [swap_edge fst snd on_edgeb]. unfold on_edge.
  rewrite !py_min_Rmin, !py_max_Rmax.
  rewrite (Rmin_comm x2 x1), (Rmax_comm x2 x1),
          (Rmin_comm y2 y1), (Rmax_comm y2 y1).
  replace ((x1 - x2) * (y - y2) - (y1 - y2) * (x - x2))
    with (- ((x2 - x1) * (y - y1) - (y2 - y1) * (x - x1))) by ring.
  now rewrite Rabs_Ropp.
Qed.

Lemma crossesb_swap (x y : R) (e : point * point) :
  crossesb x y (swap_edge e) = crossesb x y e.
Proof.
  destruct e as [[x1 y1] [x2 y2]].
  cbn [swap_edge fst snd crossesb]. unfold crosses.
  assert (Hs : straddles y y2 y1 = straddles y y1 y2)
    by (unfold straddles; now destruct (Rgtb y1 y), (Rgtb y2 y)).
  rewrite Hs. destruct (straddles y y1 y2) eqn:G; [|reflexivity].
  cbn [andb]. apply straddles_neq in G. f_equal. field. lra.
Qed.

Lemma mod_plus_n (a n : nat) : (a < n)%nat -> ((a + n) mod n = a)%nat.
Proof.
  intros H. replace (a + n)%nat with (a + 1 * n)%nat by lia.
  rewrite Nat.Div0.mod_add. now apply Nat.mod_small.
Qed.

(** A test holds at every index [sigma i] as soon as it holds at every
    index, when [sigma] maps the indices below [n] onto themselves. *)
Lemma forallb_reindex (g : nat -> bool) (n : nat) (sigma : nat -> nat) :
  (forall i, (i < n)%nat -> (sigma i < n)%nat) ->
  (forall k, (k < n)%nat -> exists i, (i < n)%nat /\ sigma i = k) ->
  forallb (fun i => g (sigma i)) (seq 0 n) = forallb g (seq 0 n).
Proof.
  intros Hin Honto. apply eq_iff_eq_true. rewrite !forallb_forall. split.
  - intros H k Hk. apply in_seq in Hk.
    destruct (Honto k) as [i [Hi <-]]; [lia|].
    apply H, in_seq. lia.
  - intros H i Hi. apply in_seq in Hi. apply H, in_seq.
    specialize (Hin i). lia.
Qed.

Lemma vertex_shift (a : point) (l : Polygon) (j : nat) :
  (j < S (length l))%nat ->
  vertex (l ++ [a]) j = vertex (a :: l) ((j + 1) mod S (length l)).
Proof.
  intros Hj. unfold vertex.
  destruct (Nat.eq_dec j (length l)) as [->|Hne].
  - replace (length l + 1)%nat with (S (length l)) by lia.
    rewrite Nat.Div0.mod_same. cbn [nth]. apply nth_middle.
  - rewrite Nat.mod_small by lia.
    replace (j + 1)%nat with (S j) by lia. cbn [nth].
    apply app_nth1. lia.
Qed.

Lemma cross_at_shift (a : point) (l : Polygon) (i : nat) :
  (i < S (length l))%nat ->
  cross_at (l ++ [a]) i = cross_at (a :: l) ((i + 1) mod S (length l)).
Proof.
  intros Hi. unfold cross_at.
  replace (length (l ++ [a])) with (S (length l))
    by (rewrite length_app; cbn; lia).
  change (length (a :: l)) with (S (length l)).
  set (n := S (length l)) in *.
  assert (Hn : n <> 0%nat) by (unfold n; lia).
  rewrite !vertex_shift
    by (try exact Hi; apply Nat.mod_upper_bound; exact Hn).
  fold n.
  replace (((i + 2) mod n + 1) mod n) with (((i + 1) mod n + 2) mod n).
  - reflexivity.
  - rewrite !Nat.Div0.add_mod_idemp_l. f_equal. lia.
Qed.

Lemma is_convex_shift (a : point) (l : Polygon) :
  is_convex (l ++ [a]) = is_convex (a :: l).
Proof.
  unfold is_convex.
  replace (length (l ++ [a])) with (S (length l))
    by (rewrite length_app; cbn; lia).
  change (length (a :: l)) with (S (length l)).
  set (n := S (length l)).
  destruct (n <? 3)%nat; [reflexivity|].
  rewrite !forallb_of_map.
  assert (Onto : forall k, (k < n)%nat ->
                   exists i, (i < n)%nat /\ ((i + 1) mod n)%nat = k).
  { intros k Hk. destruct k as [|k].
    - exists (n - 1)%nat. split; [lia|].
      replace (n - 1 + 1)%nat with n by lia. apply Nat.Div0.mod_same.
    - exists k. split; [lia|].
      rewrite Nat.mod_small by lia. lia. }
  assert (Into : forall i, (i < n)%nat -> ((i + 1) mod n < n)%nat)
    by (intros i _; apply Nat.mod_upper_bound; unfold n; lia).
  f_equal.
  - rewrite <- (forallb_reindex (fun i => Rgeb (cross_at (a :: l) i) 0) n
                  (fun i => ((i + 1) mod n)%nat) Into Onto).
    apply forallb_map_seq_ext. intros i Hi. now rewrite cross_at_shift.
  - rewrite <- (forallb_reindex (fun i => Rleb (cross_at (a :: l) i) 0) n
                  (fun i => ((i + 1) mod n)%nat) Into Onto).
    apply forallb_map_seq_ext. intros i Hi. now rewrite cross_at_shift.
Qed.

(** X22.  Over the reals, starting the vertex list at the next vertex
    changes neither the
    area, nor the perimeter, nor the convexity, nor which points are
    inside. *)
Theorem vertex_order_shift (a : point) (l : Polygon) (pt : point) :
  polygon_area (l ++ [a]) = polygon_area (a :: l) /\
  polygon_perimeter (l ++ [a]) = polygon_perimeter (a :: l) /\
  is_convex (l ++ [a]) = is_convex (a :: l) /\
  point_in_polygon (l ++ [a]) pt = point_in_polygon (a :: l) pt.
Proof.
  pose proof (edge_list_shift a l) as HP.
  split; [|split; [|split]].
  - unfold polygon_area. rewrite !shoelace_sum_edges.
    f_equal. f_equal. symmetry.
    apply Rsum_Permutation. now apply Permutation_map.
  - rewrite !polygon_perimeter_Rsum. symmetry.
    apply Rsum_Permutation. now apply Permutation_map.
  - apply is_convex_shift.
  - destruct pt as [x y]. rewrite !point_in_polygon_char. symmetry.
    f_equal; [now apply existsb_Permutation|now apply parityb_Permutation].
Qed.

Lemma vertex_rev (poly : Polygon) (j : nat) :
  (j < length poly)%nat ->
  vertex (rev poly) j = vertex poly (length poly - S j).
Proof. intros Hj. unfold vertex. now apply rev_nth. Qed.

(** The index at which the polygon has, up to sign, the cross product that
    its reverse has at [i]. *)
Lemma rev_index (n i : nat) :
  (3 <= n)%nat -> (i < n)%nat ->
  let t := ((2 * n - 3 - i) mod n)%nat in
  (t < n)%nat /\
  (n - S ((i + 2) mod n) = t)%nat /\
  (n - S ((i + 1) mod n) = (t + 1) mod n)%nat /\
  (n - S i = (t + 2) mod n)%nat.
Proof.
  intros Hn Hi. cbn zeta.
  destruct (Nat.lt_ge_cases (i + 2) n) as [H2|H2].
  - replace (2 * n - 3 - i)%nat with (n - 3 - i + n)%nat by lia.
    rewrite mod_plus_n by lia.
    rewrite !(Nat.mod_small (i + _)) by lia.
    rewrite !(Nat.mod_small (n - 3 - i + _)) by lia. lia.
  - destruct (Nat.eq_dec (i + 2) n) as [E|E].
    + replace (2 * n - 3 - i)%nat with (n - 1)%nat by lia.
      rewrite (Nat.mod_small (n - 1)) by lia.
      replace (i + 2)%nat with n by lia. rewrite Nat.Div0.mod_same.
      rewrite (Nat.mod_small (i + 1)) by lia.
      replace (n - 1 + 1)%nat with n by lia. rewrite Nat.Div0.mod_same.
      replace (n - 1 + 2)%nat with (1 + n)%nat by lia.
      rewrite mod_plus_n by lia. lia.
    + assert (Ei : i = (n - 1)%nat) by lia. subst i.
      replace (2 * n - 3 - (n - 1))%nat with (n - 2)%nat by lia.
      rewrite (Nat.mod_small (n - 2)) by lia.
      replace (n - 1 + 2)%nat with (1 + n)%nat by lia.
      rewrite mod_plus_n by lia.
      replace (n - 1 + 1)%nat with n by lia. rewrite Nat.Div0.mod_same.
      rewrite (Nat.mod_small (n - 2 + 1)) by lia.
      replace (n - 2 + 2)%nat with n by lia. rewrite Nat.Div0.mod_same.
      lia.
Qed.

Lemma cross_at_rev (poly : Polygon) (i : nat) :
  (3 <= length poly)%nat -> (i < length poly)%nat ->
  cross_at (rev poly) i
  = - cross_at poly ((2 * length poly - 3 - i) mod length poly).
Proof.
  intros Hn Hi. unfold cross_at. rewrite length_rev.
  set (n := length poly) in *.
  assert (Hn0 : n <> 0%nat) by lia.
  destruct (rev_index n i Hn Hi) as [Ht [E2 [E1 E0]]].
  rewrite !vertex_rev
    by (fold n; try exact Hi; apply Nat.mod_upper_bound; exact Hn0).
  fold n. rewrite E0, E1, E2.
  set (t := ((2 * n - 3 - i) mod n)%nat).
  destruct (vertex poly t) as [x0 y0].
  destruct (vertex poly ((t + 1) mod n)) as [x1 y1].
  destruct (vertex poly ((t + 2) mod n)) as [x2 y2].
  ring.
Qed.

Lemma is_convex_rev (poly : Polygon) : is_convex (rev poly) = is_convex poly.
Proof.
  unfold is_convex. rewrite length_rev.
  set (n := length poly).
  destruct (n <? 3)%nat eqn:En; [reflexivity|].
  apply Nat.ltb_ge in En. fold n in En.
  rewrite !forallb_of_map.
  set (tau := fun i => ((2 * n - 3 - i) mod n)%nat).
  assert (Into : forall i, (i < n)%nat -> (tau i < n)%nat)
    by (intros i _; apply Nat.mod_upper_bound; lia).
  assert (Onto : forall k, (k < n)%nat ->
                   exists i, (i < n)%nat /\ tau i = k).
  { intros k Hk. exists (tau k). split; [now apply Into|].
    destruct (rev_index n k En Hk) as [Ht [_ [_ E0]]]. fold (tau k) in *.
    destruct (rev_index n (tau k) En Ht) as [Htt [_ [_ E0']]].
    fold (tau (tau k)) in *.
    assert (Hk' : ((tau k + 2) mod n = n - S k)%nat) by lia.
    assert (Hk'' : ((tau (tau k) + 2) mod n = n - S (tau k))%nat) by lia.
    clear E0 E0'.
    destruct (Nat.lt_ge_cases (tau k + 2) n) as [A|A].
    - rewrite Nat.mod_small in Hk' by lia.
      destruct (Nat.lt_ge_cases (tau (tau k) + 2) n) as [B|B].
      + rewrite Nat.mod_small in Hk'' by lia. lia.
      + replace (tau (tau k) + 2)%nat
          with (tau (tau k) + 2 - n + n)%nat in Hk'' by lia.
        rewrite mod_plus_n in Hk'' by lia. lia.
    - replace (tau k + 2)%nat with (tau k + 2 - n + n)%nat in Hk' by lia.
      rewrite mod_plus_n in Hk' by lia.
      destruct (Nat.lt_ge_cases (tau (tau k) + 2) n) as [B|B].
      + rewrite Nat.mod_small in Hk'' by lia. lia.
      + replace (tau (tau k) + 2)%nat
          with (tau (tau k) + 2 - n + n)%nat in Hk'' by lia.
        rewrite mod_plus_n in Hk'' by lia. lia. }
  rewrite orb_comm. f_equal.
  - rewrite <- (forallb_reindex (fun i => Rgeb (cross_at poly i) 0) n
                  tau Into Onto).
    apply forallb_map_seq_ext. intros i Hi.
    rewrite cross_at_rev by (fold n; lia). fold n. fold (tau i).
    unfold Rgeb. apply Rleb_ext. lra.
  - rewrite <- (forallb_reindex (fun i => Rleb (cross_at poly i) 0) n
                  tau Into Onto).
    apply forallb_map_seq_ext. intros i Hi.
    rewrite cross_at_rev by (fold n; lia). fold n. fold (tau i).
    unfold Rgeb. apply Rleb_ext. lra.
Qed.

(** X23.  Listing the vertices in the opposite order changes neither the
    area, nor the perimeter, nor the convexity, nor which points are
    inside. *)
Theorem vertex_order_rev (poly : Polygon) (pt : point) :
  polygon_area (rev poly) = polygon_area poly /\
  polygon_perimeter (rev poly) = polygon_perimeter poly /\
  is_convex (rev poly) = is_convex poly /\
  point_in_polygon (rev poly) pt = point_in_polygon poly pt.
Proof.
  pose proof (edge_list_rev poly) as HP.
  split; [|split; [|split]].
  - unfold polygon_area. rewrite !shoelace_sum_edges.
    rewrite (Rsum_Permutation _ _ (Permutation_map shoelace_term HP)).
    rewrite map_map.
    rewrite (Rsum_map_ext_scale (- 1) _ shoelace_term)
      by apply shoelace_term_swap.
    replace (- 1 * Rsum (map shoelace_term (edge_list poly)))
      with (- Rsum (map shoelace_term (edge_list poly))) by ring.
    now rewrite Rabs_Ropp.
  - rewrite !polygon_perimeter_Rsum.
    rewrite (Rsum_Permutation _ _ (Permutation_map side_length HP)).
    rewrite map_map.
    rewrite (Rsum_map_ext_scale 1 _ side_length)
      by apply side_length_swap.
    ring.
  - apply is_convex_rev.
  - destruct pt as [x y]. rewrite !point_in_polygon_char.
    rewrite (existsb_Permutation _ _ _ HP),
            (parityb_Permutation _ _ _ HP).
    f_equal.
    + apply existsb_of_map, on_edgeb_swap.
    + apply parityb_of_map, crossesb_swap.
Qed.

(** * The program on machine numbers *)

(** C3, as stated, fails on binary64.  The unit square has area 1.0;
    translated by (1e16, 0) its abscissas 0 and 1 are both absorbed into
    1e16, and its area is 0.0. *)
Lemma polygon_area_translate_b64 :
  B64.polygon_area (B64.gen_rectangle (B64.Int 1) (B64.Int 1))
  = B64.Value (B64.Flt B64.f1) /\
  B64.bind (B64.tr_translate (B64.gen_rectangle (B64.Int 1) (B64.Int 1))
                             (B64.Flt B64.f1e16) (B64.Int 0))
           B64.polygon_area
  = B64.Value (B64.Flt B64.f0) /\
  B64.bind (B64.tr_translate (B64.gen_rectangle (B64.Int 1) (B64.Int 1))
                             (B64.Flt B64.f1e16) (B64.Int 0))
           B64.polygon_area
  <> B64.polygon_area (B64.gen_rectangle (B64.Int 1) (B64.Int 1)).
Proof.
  split; [vm_compute; reflexivity|]. split; [vm_compute; reflexivity|].
  intros H. apply (f_equal is_float_zero) in H.
  vm_compute in H. discriminate H.
Qed.


(** C8, as stated, fails on binary64.  For the side 1e200, which is
    positive, the cross products of the hexagon overflow, one of them is
    [inf - inf], and [is_convex] returns False. *)
Lemma hexagon_not_convex_b64 :
  B64.lt (B64.Int 0) (B64.Flt B64.f1e200) = true /\
  B64.bind (B64.gen_hexagon B64.libm_cos B64.libm_sin (B64.Flt B64.f1e200))
           (fun poly => B64.mapM (B64.cross_at poly) (seq 0 6))
  = B64.Value [B64.Flt PrimFloat.infinity; B64.Flt PrimFloat.infinity;
               B64.Flt PrimFloat.infinity; B64.Flt PrimFloat.nan;
               B64.Flt PrimFloat.infinity; B64.Flt PrimFloat.infinity] /\
  B64.bind (B64.gen_hexagon B64.libm_cos B64.libm_sin (B64.Flt B64.f1e200))
           B64.is_convex
  = B64.Value false.
Proof. repeat split; vm_compute; reflexivity. Qed.

(** C9.  [point_in_polygon] divides by zero on the polygon
    ((0, 2**53 + 1), (1, 2.0**53), (0, 0)) at the point (-1.0, 2.0**53).
    On the first edge the guard compares the int [2**53 + 1] with the
    float [2.0**53] exactly and holds, while [y2 - y1] converts the int
    to the float [2.0**53] and is 0.0: the division raises
    [ZeroDivisionError]. *)
Theorem point_in_polygon_zero_division_b64 :
  B64.gt (B64.Int (2 ^ 53 + 1)) (B64.Flt B64.two53) = true /\
  B64.gt (B64.Flt B64.two53) (B64.Flt B64.two53) = false /\
  B64.sub (B64.Flt B64.two53) (B64.Int (2 ^ 53 + 1))
  = B64.Value (B64.Flt B64.f0) /\
  B64.point_in_polygon
    [(B64.Int 0, B64.Int (2 ^ 53 + 1));
     (B64.Int 1, B64.Flt B64.two53);
     (B64.Int 0, B64.Int 0)]
    (B64.Flt B64.minus1, B64.Flt B64.two53)
  = B64.Raise B64.ZeroDivisionError.
Proof. repeat split; vm_compute; reflexivity. Qed.

(** The machine model agrees with the model over the reals on the three
    values of C1. *)
Example point_in_polygon_rectangle_b64 :
  B64.point_in_polygon (B64.gen_rectangle (B64.Int 2) (B64.Int 2))
                       (B64.Int 1, B64.Int 1) = B64.Value true /\
  B64.point_in_polygon (B64.gen_rectangle (B64.Int 2) (B64.Int 2))
                       (B64.Int 3, B64.Int 3) = B64.Value false /\
  B64.point_in_polygon (B64.gen_rectangle (B64.Int 2) (B64.Int 2))
                       (B64.Int 0, B64.Int 1) = B64.Value true.
Proof. repeat split; vm_compute; reflexivity. Qed.
